(** * bubbletea-droplet: the form controller and the submission task

    A shallow embedding of [main.go]: the Bubble Tea model of the droplet
    form, its [Update] and [View] functions, the request builder
    [setDropletCreate] and the command returned by [dropletCreate].

    Conventions.
    - Go's [int] is the 64-bit signed integer; it is carried as a [Z] and
      every increment or decrement writes its wrap-around out ([wrap]).
    - Go strings are byte strings ([string]).
    - A pointer is an [option]; dereferencing [None], and indexing a slice out
      of range, is a run-time panic, which is the [None] of a function whose
      result is an [option].
    - A [tea.Cmd] is a Go closure; it is represented by the expression that
      builds it ([Cmd]).
    - The libraries the program is linked against, whose code is not part of
      the repository, are parameters ([Opaque], [Libraries], [godo.Client]). *)

From Stdlib Require Import ZArith Floats Ascii String.
From Stdlib Require Import DecimalString DecimalPos.
From stdpp Require Import gmap strings list.

Local Open Scope Z_scope.
Set Warnings "-register-all".

(** ** Go's [int] *)

Definition minInt : Z := - 2 ^ 63.
Definition maxInt : Z := 2 ^ 63 - 1.

(** The value an [int] computation is reduced to. *)
Definition wrap (z : Z) : Z := (z + 2 ^ 63) mod 2 ^ 64 - 2 ^ 63.

(** ** Parts of the runtime the program never looks into *)

(** Messages other than key presses and [dropletMsg] (ticks, blinks, window
    sizes) and commands built inside the libraries. *)
Class Opaque := {
  LibMsg : Type;
  LibCmd : Type;
}.

(** ** package lipgloss *)
Module lipgloss.

(** A style as far as the program sets it: its foreground colour. *)
Record Style := { Foreground : option string }.

Definition NewStyle : Style := {| Foreground := None |}.
Definition withForeground (c : string) (_ : Style) : Style :=
  {| Foreground := Some c |}.
Definition Copy (s : Style) : Style := s.

End lipgloss.

(** ** package strconv *)
Module strconv.

(** The value of a decimal digit, [ch -= '0'; if ch > 9 { error }]. *)
Definition digit (c : ascii) : option Z :=
  let n := Z.of_N (N_of_ascii c) in
  if (48 <=? n) && (n <=? 57) then Some (n - 48) else None.

Fixpoint digits (acc : Z) (s : string) : option Z :=
  match s with
  | EmptyString => Some acc
  | String c s' => d ← digit c; digits (acc * 10 + d) s'
  end.

(** [strconv.Atoi]: an optional sign, then one or more decimal digits, and a
    value that fits an [int]; [None] is a non-nil [error] (syntax or range). *)
Definition Atoi (s : string) : option Z :=
  match s with
  | EmptyString => None
  | String c rest =>
      let signed := Ascii.eqb c "-" || Ascii.eqb c "+" in
      let body := if signed then rest else s in
      match body with
      | EmptyString => None
      | _ =>
          n ← digits 0 body;
          let v := if Ascii.eqb c "-" then - n else n in
          if (minInt <=? v) && (v <=? maxInt) then Some v else None
      end
  end.

(** [strconv.Itoa]: the decimal numeral of an [int], with a minus sign when
    it is negative. *)
Definition Itoa (z : Z) : string := NilZero.string_of_int (Z.to_int z).

End strconv.

(** ** package godo *)
Module godo.

Record DropletCreateImage := { ID : Z; Slug : string }.

Record DropletCreateRequest := {
  Name : string;
  Region : string;
  Size : string;
  Image : DropletCreateImage;
}.

(** The zero value, [&godo.DropletCreateRequest{}]. *)
Definition emptyRequest : DropletCreateRequest :=
  {| Name := ""; Region := ""; Size := "";
     Image := {| ID := 0; Slug := "" |} |}.

Record SizeT := { size_Slug : string; PriceMonthly : float }.
Record RegionT := { region_Name : string }.
Record NetworkV4 := { IPAddress : string; Type_ : string }.

Record Droplet := {
  droplet_ID : Z;
  droplet_Name : string;
  droplet_Size : option SizeT;        (* pointer *)
  droplet_Region : option RegionT;    (* pointer *)
  droplet_Networks : option (list NetworkV4);
}.

Record LinkAction := { HREF : string }.
Record Links := { Actions : list LinkAction }.
Record Response := { resp_Links : option Links (* pointer *) }.

(** A Go [error], by its [Error()] text. *)
Record error := errors_New { Error : string }.

(** What the provisioning API answers. The task calls each operation at most
    once, so a function of the arguments is as general as a stateful
    server. *)
Record Client := {
  Droplets_Create :
    DropletCreateRequest → option Droplet * option Response * option error;
  WaitForActive : string → option error;
  Droplets_Get : Z → option Droplet * option Response * option error;
}.

End godo.

(** ** Messages and commands (package tea) *)

(** [KeyMsg] carries [msg.String()], the only thing [Update] reads of a key. *)
Inductive Msg `{Opaque} :=
| KeyMsg (key : string)
| dropletMsg (text : string)
| OtherMsg (m : LibMsg).

Inductive Cmd `{Opaque} :=
| nilCmd                                            (* nil *)
| tea_Quit
| tea_BatchOf (cmds : list Cmd)
| spinner_Tick
| textinput_Blink
| textinput_blinkCmd
| dropletCreate (createReq : godo.DropletCreateRequest)
| libCmd (c : LibCmd).

(** [tea.Batch]: [nil] for no commands, else one command that runs them all. *)
Definition tea_Batch `{Opaque} (cmds : list Cmd) : Cmd :=
  match cmds with
  | [] => nilCmd
  | _ => tea_BatchOf cmds
  end.

(** How many submission tasks a command starts. *)
Fixpoint dispatched `{Opaque} (c : Cmd) : nat :=
  match c with
  | dropletCreate _ => 1%nat
  | tea_BatchOf cmds =>
      (fix sum (l : list Cmd) : nat :=
         match l with
         | [] => 0%nat
         | c :: l => (dispatched c + sum l)%nat
         end) cmds
  | _ => 0%nat
  end.

(** ** package textinput *)
Module textinput.

Inductive CursorMode := CursorBlink | CursorStatic | CursorHide.

(** The fields of [textinput.Model] the program reads or writes. *)
Record Model := {
  Prompt : string;
  Placeholder : string;
  PromptStyle : lipgloss.Style;
  TextStyle : lipgloss.Style;
  PlaceholderStyle : lipgloss.Style;
  CursorStyle : lipgloss.Style;
  CharLimit : Z;
  value : string;
  focus : bool;
  blink : bool;
  cursorMode : CursorMode;
}.

Definition NewModel : Model :=
  {| Prompt := "> "; Placeholder := "";
     PromptStyle := lipgloss.NewStyle; TextStyle := lipgloss.NewStyle;
     PlaceholderStyle := lipgloss.withForeground "240" lipgloss.NewStyle;
     CursorStyle := lipgloss.NewStyle;
     CharLimit := 0; value := ""; focus := false; blink := true;
     cursorMode := CursorBlink |}.

Definition Value (m : Model) : string := value m.

(** Assignments to one field, [m.Prompt = v] and the like. *)
Definition set_Prompt (v : string) (m : Model) : Model :=
  Build_Model v (Placeholder m) (PromptStyle m) (TextStyle m)
    (PlaceholderStyle m) (CursorStyle m) (CharLimit m) (value m) (focus m)
    (blink m) (cursorMode m).
Definition set_Placeholder (v : string) (m : Model) : Model :=
  Build_Model (Prompt m) v (PromptStyle m) (TextStyle m)
    (PlaceholderStyle m) (CursorStyle m) (CharLimit m) (value m) (focus m)
    (blink m) (cursorMode m).
Definition set_PromptStyle (v : lipgloss.Style) (m : Model) : Model :=
  Build_Model (Prompt m) (Placeholder m) v (TextStyle m)
    (PlaceholderStyle m) (CursorStyle m) (CharLimit m) (value m) (focus m)
    (blink m) (cursorMode m).
Definition set_TextStyle (v : lipgloss.Style) (m : Model) : Model :=
  Build_Model (Prompt m) (Placeholder m) (PromptStyle m) v
    (PlaceholderStyle m) (CursorStyle m) (CharLimit m) (value m) (focus m)
    (blink m) (cursorMode m).
Definition set_PlaceholderStyle (v : lipgloss.Style) (m : Model) : Model :=
  Build_Model (Prompt m) (Placeholder m) (PromptStyle m) (TextStyle m)
    v (CursorStyle m) (CharLimit m) (value m) (focus m)
    (blink m) (cursorMode m).
Definition set_CursorStyle (v : lipgloss.Style) (m : Model) : Model :=
  Build_Model (Prompt m) (Placeholder m) (PromptStyle m) (TextStyle m)
    (PlaceholderStyle m) v (CharLimit m) (value m) (focus m)
    (blink m) (cursorMode m).
Definition set_CharLimit (v : Z) (m : Model) : Model :=
  Build_Model (Prompt m) (Placeholder m) (PromptStyle m) (TextStyle m)
    (PlaceholderStyle m) (CursorStyle m) v (value m) (focus m)
    (blink m) (cursorMode m).
Definition set_focus (v : bool) (m : Model) : Model :=
  Build_Model (Prompt m) (Placeholder m) (PromptStyle m) (TextStyle m)
    (PlaceholderStyle m) (CursorStyle m) (CharLimit m) (value m) v
    (blink m) (cursorMode m).
Definition set_blink (v : bool) (m : Model) : Model :=
  Build_Model (Prompt m) (Placeholder m) (PromptStyle m) (TextStyle m)
    (PlaceholderStyle m) (CursorStyle m) (CharLimit m) (value m) (focus m)
    v (cursorMode m).

Definition isBlink (c : CursorMode) : bool :=
  match c with CursorBlink => true | _ => false end.
Definition isHide (c : CursorMode) : bool :=
  match c with CursorHide => true | _ => false end.

(** [Focus], on a pointer receiver: sets the focus, shows the cursor unless
    it is hidden, and returns the blink command when the cursor blinks. *)
Definition Focus `{Opaque} (m : Model) : Model * Cmd :=
  let m := set_focus true m in
  let m := set_blink (isHide (cursorMode m)) m in
  (m, if isBlink (cursorMode m) && focus m then textinput_blinkCmd
      else nilCmd).

(** [Blur], on a pointer receiver. *)
Definition Blur (m : Model) : Model :=
  let m := set_focus false m in
  set_blink true m.

End textinput.

(** ** package spinner *)
Module spinner.

Inductive Spinner :=
  Line | Dot | MiniDot | Jump | Pulse | Points | Globe | Moon | Monkey.

Record Model := {
  Spinner_ : Spinner;
  Style : lipgloss.Style;
  frame : Z;
}.

Definition NewModel : Model :=
  {| Spinner_ := Line; Style := lipgloss.NewStyle; frame := 0 |}.

Definition set_Spinner (v : Spinner) (m : Model) : Model :=
  Build_Model v (Style m) (frame m).
Definition set_Style (v : lipgloss.Style) (m : Model) : Model :=
  Build_Model (Spinner_ m) v (frame m).

End spinner.

(** ** The library functions the program calls *)

Class Libraries `{Opaque} := {
  (** [lipgloss.Style.Render] *)
  Render : lipgloss.Style → string → string;
  (** [textinput.Model.Update] and [View] *)
  textinput_Update : textinput.Model → Msg → textinput.Model * LibCmd;
  textinput_View : textinput.Model → string;
  (** [spinner.Model.Update] and [View] *)
  spinner_Update : spinner.Model → Msg → spinner.Model * LibCmd;
  spinner_View : spinner.Model → string;
  (** [fmt.Sprintf("%.2f", x)] *)
  Sprintf_2f : float → string;
  (** [godo.Droplet.PublicIPv4] and [PrivateIPv4] *)
  PublicIPv4 : godo.Droplet → string * option godo.error;
  PrivateIPv4 : godo.Droplet → string * option godo.error;
}.

(** ** package main *)

Definition nl : string := String (ascii_of_nat 10) EmptyString.

Definition placeholderStyle : lipgloss.Style :=
  lipgloss.withForeground "#99A1B3" lipgloss.NewStyle.
Definition focusedStyle : lipgloss.Style :=
  lipgloss.withForeground "#0080FF" lipgloss.NewStyle.
Definition blurredStyle : lipgloss.Style :=
  lipgloss.withForeground "#5B6987" lipgloss.NewStyle.
Definition cursorStyle : lipgloss.Style := lipgloss.Copy focusedStyle.
Definition noStyle : lipgloss.Style := lipgloss.NewStyle.
Definition helpStyle : lipgloss.Style := lipgloss.Copy blurredStyle.

Record model := {
  focusIndex : Z;
  inputs : list textinput.Model;
  cursorMode : textinput.CursorMode;
  spinner : spinner.Model;
  creating : bool;
  finalMsg : string;
  droplet : option godo.DropletCreateRequest;   (* pointer *)
}.

(** Assignments to one field of the model. *)
Definition set_focusIndex (v : Z) (m : model) : model :=
  Build_model v (inputs m) (cursorMode m) (spinner m) (creating m)
    (finalMsg m) (droplet m).
Definition set_inputs (v : list textinput.Model) (m : model) : model :=
  Build_model (focusIndex m) v (cursorMode m) (spinner m) (creating m)
    (finalMsg m) (droplet m).
Definition set_spinner (v : spinner.Model) (m : model) : model :=
  Build_model (focusIndex m) (inputs m) (cursorMode m) v (creating m)
    (finalMsg m) (droplet m).
Definition set_creating (v : bool) (m : model) : model :=
  Build_model (focusIndex m) (inputs m) (cursorMode m) (spinner m) v
    (finalMsg m) (droplet m).
Definition set_finalMsg (v : string) (m : model) : model :=
  Build_model (focusIndex m) (inputs m) (cursorMode m) (spinner m)
    (creating m) v (droplet m).
Definition set_droplet (v : option godo.DropletCreateRequest) (m : model)
  : model :=
  Build_model (focusIndex m) (inputs m) (cursorMode m) (spinner m)
    (creating m) (finalMsg m) v.

(** The body of the loop of [initialModel] for index [i]: the input stored
    at [m.inputs[i]]. *)
Definition initialInput `{Opaque} (i : nat) : textinput.Model :=
  let t := textinput.NewModel in
  let t := textinput.set_CursorStyle cursorStyle t in
  let t := textinput.set_CharLimit 32 t in
  match i with
  | 0%nat =>
      let t := (textinput.Focus t).1 in
      let t := textinput.set_Prompt "Name: " t in
      let t := textinput.set_Placeholder "web-001" t in
      let t := textinput.set_PlaceholderStyle placeholderStyle t in
      let t := textinput.set_PromptStyle focusedStyle t in
      let t := textinput.set_TextStyle focusedStyle t in
      textinput.set_CharLimit 64 t
  | 1%nat =>
      let t := textinput.set_Prompt "Region: " t in
      let t := textinput.set_Placeholder "nyc3" t in
      textinput.set_PlaceholderStyle placeholderStyle t
  | 2%nat =>
      let t := textinput.set_Prompt "Size: " t in
      let t := textinput.set_Placeholder "s-1vcpu-1gb" t in
      textinput.set_PlaceholderStyle placeholderStyle t
  | 3%nat =>
      let t := textinput.set_Prompt "Image: " t in
      let t := textinput.set_Placeholder "ubuntu-20-04-x64" t in
      textinput.set_PlaceholderStyle placeholderStyle t
  | _ => t
  end.

(** [initialModel]: four inputs, each set by the loop, and the spinner. *)
Definition initialModel `{Opaque} : model :=
  let m := {| focusIndex := 0;
              inputs := initialInput <$> seq 0 4;
              cursorMode := textinput.CursorBlink;
              spinner := spinner.NewModel;
              creating := false;
              finalMsg := "";
              droplet := None |} in
  let m := set_spinner (spinner.set_Style focusedStyle (spinner m)) m in
  set_spinner (spinner.set_Spinner spinner.Points (spinner m)) m.

(** [len(m.inputs)] *)
Definition len (m : model) : Z := Z.of_nat (length (inputs m)).

(** [setDropletCreate]: the request built from the four inputs; a missing
    input is an index out of range. *)
Definition setDropletCreate (inputs : list textinput.Model)
  : option godo.DropletCreateRequest :=
  let orPlaceholder (t : textinput.Model) :=
    if String.eqb (textinput.Value t) "" then textinput.Placeholder t
    else textinput.Value t in
  i0 ← inputs !! 0%nat;
  i1 ← inputs !! 1%nat;
  i2 ← inputs !! 2%nat;
  i3 ← inputs !! 3%nat;
  let imageStr := orPlaceholder i3 in
  let createImage :=
    match strconv.Atoi imageStr with
    | Some i => {| godo.ID := i; godo.Slug := "" |}
    | None => {| godo.ID := 0; godo.Slug := imageStr |}
    end in
  Some {| godo.Name := orPlaceholder i0;
          godo.Region := orPlaceholder i1;
          godo.Size := orPlaceholder i2;
          godo.Image := createImage |}.

Section Program.
Context {Op : Opaque} {Libs : Libraries}.

Definition focusedButton : string :=
  Render (lipgloss.Copy focusedStyle) "[ Create ]".
Definition blurredButton : string :=
  "[ " +:+ Render blurredStyle "Create" +:+ " ]".

(** [m.updateInputs(msg)]: every input is handed the message. *)
Definition updateInputs (m : model) (msg : Msg) : model * Cmd :=
  let updated := (λ t, textinput_Update t msg) <$> inputs m in
  (set_inputs updated.*1 m, tea_Batch (libCmd <$> updated.*2)).

(** The body of the loop that moves the focus, for the input at index [i]:
    the input left at [m.inputs[i]] and the command left at [cmds[i]]. *)
Definition refocus (focusIndex : Z) (i : nat) (t : textinput.Model)
  : textinput.Model * Cmd :=
  if Z.of_nat i =? focusIndex then
    let '(t, c) := textinput.Focus t in
    let t := textinput.set_PromptStyle focusedStyle t in
    let t := textinput.set_TextStyle focusedStyle t in
    (t, c)
  else
    let t := textinput.Blur t in
    let t := textinput.set_PromptStyle noStyle t in
    let t := textinput.set_TextStyle noStyle t in
    (t, nilCmd).

(** The part of [Update] after the [switch]: inputs, then the spinner. *)
Definition updateRest (m : model) (msg : Msg) : model * Cmd :=
  let '(m, inputsCmd) := updateInputs m msg in
  let '(sp, spinnerCmd) := spinner_Update (spinner m) msg in
  let m := set_spinner sp m in
  (m, tea_Batch [inputsCmd; libCmd spinnerCmd]).

Definition isCancelKey (s : string) : bool :=
  String.eqb s "ctrl+c" || String.eqb s "esc".

Definition isFocusKey (s : string) : bool :=
  String.eqb s "tab" || String.eqb s "shift+tab" || String.eqb s "enter"
  || String.eqb s "up" || String.eqb s "down".

(** [model.Init] *)
Definition Init (m : model) : Cmd := textinput_Blink.

(** [model.Update]; [None] is a panic. *)
Definition Update (m : model) (msg : Msg) : option (model * Cmd) :=
  match msg with
  | KeyMsg s =>
      if isCancelKey s then Some (m, tea_Quit)
      else if isFocusKey s then
        if String.eqb s "enter" && (focusIndex m =? len m) then
          d ← setDropletCreate (inputs m);
          let m := set_droplet (Some d) m in
          let m := set_creating true m in
          Some (m, tea_Batch [dropletCreate d; spinner_Tick])
        else
          (* Cycle indexes *)
          let m :=
            if String.eqb s "up" || String.eqb s "shift+tab"
            then set_focusIndex (wrap (focusIndex m - 1)) m
            else set_focusIndex (wrap (focusIndex m + 1)) m in
          let m :=
            if focusIndex m >? len m then set_focusIndex 0 m
            else if focusIndex m <? 0 then set_focusIndex (len m) m
            else m in
          let moved := imap (refocus (focusIndex m)) (inputs m) in
          let m := set_inputs moved.*1 m in
          Some (m, tea_Batch moved.*2)
      else Some (updateRest m msg)
  | dropletMsg text =>
      let m := set_finalMsg text m in
      Some (m, tea_Quit)
  | OtherMsg _ => Some (updateRest m msg)
  end.

(** [strings.Join] of the input views with a newline between them. *)
Fixpoint joinViews (l : list textinput.Model) : string :=
  match l with
  | [] => ""
  | [t] => textinput_View t
  | t :: l => textinput_View t +:+ nl +:+ joinViews l
  end.

(** [model.View] *)
Definition View (m : model) : string :=
  if negb (String.eqb (finalMsg m) "") then finalMsg m
  else if creating m then
    spinner_View (spinner m) +:+ "  "
    +:+ Render placeholderStyle "Creating Droplet..." +:+ nl +:+ nl
  else
    joinViews (inputs m) +:+ nl +:+ nl
    +:+ (if focusIndex m =? len m then focusedButton else blurredButton)
    +:+ nl +:+ nl.

(** [dropletErrorMsg]; the text before [Something went wrong:] is the emoji
    of the source, byte for byte. *)
Definition dropletErrorMsg (err : godo.error) : string :=
  Render focusedStyle "ðŸ˜ž Something went wrong:"
  +:+ nl +:+ nl +:+ Render placeholderStyle (godo.Error err) +:+ nl +:+ nl.

End Program.

(** ** The submission task *)

(** A request sent to the provisioning API. *)
Inductive Call :=
| CreateCall (token : string) (createReq : godo.DropletCreateRequest)
| WaitForActiveCall (token : string) (href : string)
| GetCall (token : string) (id : Z).

(** One statement of the task: it goes on with a value, returns the task's
    message, or panics. *)
Inductive Step (A : Type) :=
| Next (a : A)
| Return_ (msg : string)
| Crash.
Arguments Next {A} a.
Arguments Return_ {A} msg.
Arguments Crash {A}.

(** A statement run after the calls made so far. *)
Definition Task (A : Type) : Type := list Call → list Call * Step A.

#[global] Instance Task_ret : MRet Task := λ A a calls, (calls, Next a).
#[global] Instance Task_bind : MBind Task := λ A B f t calls,
  match t calls with
  | (calls, Next a) => f a calls
  | (calls, Return_ msg) => (calls, Return_ msg)
  | (calls, Crash) => (calls, Crash)
  end.

Definition call {A} (c : Call) (answer : A) : Task A :=
  λ calls, (calls ++ [c], Next answer).
Definition return_ {A} (msg : string) : Task A :=
  λ calls, (calls, Return_ msg).
(** [*p] *)
Definition deref {A} (p : option A) : Task A :=
  λ calls, (calls, match p with Some a => Next a | None => Crash end).
(** [l[i]] *)
Definition index {A} (l : list A) (i : nat) : Task A := deref (l !! i).

(** What running a command gives the event loop: the calls it made, and the
    one message it returned, or none when it panicked. *)
Definition runTask (t : Task string) : list Call * option string :=
  match t [] with
  | (calls, Next msg) | (calls, Return_ msg) => (calls, Some msg)
  | (calls, Crash) => (calls, None)
  end.

(** Runs the statements of a task as far as they are known, with the
    equations collected in the rewrite database [task]. *)
Create Rewrite HintDb task.
Ltac task_steps :=
  repeat (progress (autorewrite with task; lazy beta iota zeta)).

(** Closes a path of the task once its statements have run: the result as
    it stands, the calls as the first of the planned ones, and either the
    outcome [o] whose message was returned or none. *)
Ltac task_path o :=
  eexists _, _;
  split; [reflexivity|];
  split; [by eexists|];
  split; [by split|];
  first [by exists o | by split].

(** [os.Getenv] *)
Definition Getenv (env : gmap string string) (key : string) : string :=
  default "" (env !! key).

Section Submission.
Context {Op : Opaque} {Libs : Libraries}.
(** [godo.NewFromToken]: the API as a client with this token sees it. *)
Context (NewFromToken : string → godo.Client).
Context (env : gmap string string).

(** [if err != nil { return dropletMsg(dropletErrorMsg(err)) }] *)
Definition check (err : option godo.error) : Task unit :=
  match err with
  | Some e => return_ (dropletErrorMsg e)
  | None => mret ()
  end.

(** The summary built after a successful creation; the text before
    [Success!] is the two emoji of the source, byte for byte. *)
Definition successMsg (droplet : godo.Droplet) (size : godo.SizeT)
    (region : godo.RegionT) (pubIP privIP : string) : string :=
  "ðŸŽ‰ ðŸ’§ " +:+ Render focusedStyle "Success!" +:+ nl +:+ nl
  +:+ Render focusedStyle "Name:" +:+ " "
      +:+ Render placeholderStyle (godo.droplet_Name droplet) +:+ nl
  +:+ Render focusedStyle "Price Monthly:" +:+ " "
      +:+ Render placeholderStyle ("$" +:+ Sprintf_2f (godo.PriceMonthly size))
      +:+ nl
  +:+ Render focusedStyle "Region:" +:+ " "
      +:+ Render placeholderStyle (godo.region_Name region) +:+ nl
  +:+ Render focusedStyle "Size:" +:+ " "
      +:+ Render placeholderStyle (godo.size_Slug size) +:+ nl
  +:+ Render focusedStyle "Public IPv4:" +:+ " "
      +:+ Render placeholderStyle pubIP +:+ nl
  +:+ Render focusedStyle "Private IPv4:" +:+ " "
      +:+ Render placeholderStyle privIP +:+ nl
  +:+ nl.

(** The closure returned by [dropletCreate(createReq)]. *)
Definition dropletCreateTask (createReq : godo.DropletCreateRequest)
  : Task string :=
  let token := Getenv env "DO_TOKEN" in
  if String.eqb token "" then
    return_ (dropletErrorMsg (godo.errors_New
      "set the 'DO_TOKEN' environment variable to a DigitalOcean API token"))
  else
    let client := NewFromToken token in
    '(droplet, resp, err) ←
      call (CreateCall token createReq) (godo.Droplets_Create client createReq);
    _ ← check err;
    resp ← deref resp;
    links ← deref (godo.resp_Links resp);
    action ← index (godo.Actions links) 0;
    err ← call (WaitForActiveCall token (godo.HREF action))
               (godo.WaitForActive client (godo.HREF action));
    _ ← check err;
    droplet ← deref droplet;
    '(droplet, _, err) ←
      call (GetCall token (godo.droplet_ID droplet))
           (godo.Droplets_Get client (godo.droplet_ID droplet));
    _ ← check err;
    droplet ← deref droplet;
    let '(pubIP, err) := PublicIPv4 droplet in
    _ ← check err;
    let '(privIP, err) := PrivateIPv4 droplet in
    _ ← check err;
    size ← deref (godo.droplet_Size droplet);
    region ← deref (godo.droplet_Region droplet);
    mret (successMsg droplet size region pubIP privIP).

(** Running the command [dropletCreate createReq]. *)
Definition runDropletCreate (createReq : godo.DropletCreateRequest)
  : list Call * option string :=
  runTask (dropletCreateTask createReq).

End Submission.

(** ** Runs of the event loop *)

Section Runs.
Context {Op : Opaque} {Libs : Libraries}.

(** The model after the messages have been handled in order, with the
    commands returned on the way. *)
Fixpoint run (m : model) (msgs : list Msg) : option (model * list Cmd) :=
  match msgs with
  | [] => Some (m, [])
  | msg :: msgs =>
      '(m, c) ← Update m msg;
      '(m, cs) ← run m msgs;
      Some (m, c :: cs)
  end.

(** The states the program can be in. *)
Inductive reachable : model → Prop :=
| reachable_initial : reachable initialModel
| reachable_Update m msg m' c :
    reachable m → Update m msg = Some (m', c) → reachable m'.

(** The keys that only move the focus. *)
Inductive FocusKey := Tab | Down | ShiftTab | Up.

Definition keyName (k : FocusKey) : string :=
  match k with
  | Tab => "tab"
  | Down => "down"
  | ShiftTab => "shift+tab"
  | Up => "up"
  end.

Definition advances (k : FocusKey) : bool :=
  match k with Tab | Down => true | _ => false end.

(** The submit control is shown focused by [View] when the index is one past
    the inputs. *)
Definition submitFocused (m : model) : bool := focusIndex m =? len m.

(** How many of the inputs and the submit control have the focus. *)
Definition focusedCount (m : model) : nat :=
  (length (filter (λ t, textinput.focus t = true) (inputs m))
   + (if submitFocused m then 1 else 0))%nat.

(** The phases of the specification, read off the two fields [View]
    switches on and off the text of the final message. *)
Inductive Phase := Editing | Submitting | Succeeded | Failed.

Definition phase (m : model) (p : Phase) : Prop :=
  match p with
  | Editing => finalMsg m = "" ∧ creating m = false
  | Submitting => finalMsg m = "" ∧ creating m = true
  | Succeeded =>
      ∃ droplet size region pubIP privIP,
        finalMsg m = successMsg droplet size region pubIP privIP
  | Failed => ∃ err, finalMsg m = dropletErrorMsg err
  end.

(** The shape every reachable model has: four inputs, and an index on one
    of them or on the submit control. *)
Definition wf (m : model) : Prop :=
  length (inputs m) = 4%nat ∧ 0 ≤ focusIndex m ≤ 4.

(** The index after the focus has been cycled, backwards or forwards. *)
Definition cycled (back : bool) (m : model) : Z :=
  let fi := if back then wrap (focusIndex m - 1) else wrap (focusIndex m + 1) in
  if fi >? len m then 0 else if fi <? 0 then len m else fi.

(** The result of the branch of [Update] that cycles the focus. *)
Definition moveFocus (back : bool) (m : model) : model * Cmd :=
  let moved := imap (refocus (cycled back m)) (inputs m) in
  (set_inputs moved.*1 (set_focusIndex (cycled back m) m),
   tea_Batch moved.*2).

(** The result of the branch of [Update] that submits the form. *)
Definition submitted (m : model) (d : godo.DropletCreateRequest)
  : model * Cmd :=
  (set_creating true (set_droplet (Some d) m),
   tea_Batch [dropletCreate d; spinner_Tick]).

(** The message is the enter key pressed on the submit control. *)
Definition submits (m : model) (msg : Msg) : bool :=
  match msg with
  | KeyMsg s => String.eqb s "enter" && (focusIndex m =? len m)
  | _ => false
  end.

End Runs.

(** [sub] occurs in [s]. *)
Definition contains (s sub : string) : Prop :=
  ∃ before after, s = before +:+ sub +:+ after.

(** The field values as the specification's [resolved_value()] words them:
    the value if it is not empty, else the placeholder. *)
Definition resolved_value (t : textinput.Model) : string :=
  if decide (textinput.Value t = "") then textinput.Placeholder t
  else textinput.Value t.

(** The image reference as the specification words it: a numeric identifier
    when the string parses as a base-10 integer, else the string as a slug. *)
Definition imageReference (s : string) : godo.DropletCreateImage :=
  match strconv.Atoi s with
  | Some id => {| godo.ID := id; godo.Slug := "" |}
  | None => {| godo.ID := 0; godo.Slug := s |}
  end.

(** ** The steps of a submission, as the specification words them *)

(** How the steps of one submission end: at the first failure, or with the
    droplet, its size, its region and its two addresses. *)
Inductive Outcome :=
| Failure (err : godo.error)
| Success (droplet : godo.Droplet) (size : godo.SizeT)
    (region : godo.RegionT) (pubIP privIP : string).

(** The error returned when the credential is missing. *)
Definition missingToken : godo.error :=
  godo.errors_New
    "set the 'DO_TOKEN' environment variable to a DigitalOcean API token".

(** The creation succeeded, for the droplet [created], with [href] the link
    of its first action. *)
Definition creationOf (client : godo.Client)
    (createReq : godo.DropletCreateRequest) (created : godo.Droplet)
    (href : string) : Prop :=
  ∃ resp links action rest,
    godo.Droplets_Create client createReq = (Some created, Some resp, None)
    ∧ godo.resp_Links resp = Some links
    ∧ godo.Actions links = action :: rest
    ∧ godo.HREF action = href.

Section Outcomes.
Context {Op : Opaque} {Libs : Libraries}.

(** The steps in order (credential, create, wait until active, get, public
    address, private address), the calls made to the API on the way, and the
    outcome: the failure of the first step that fails, or success when none
    does. *)
Inductive steps (client : godo.Client) (token : string)
    (createReq : godo.DropletCreateRequest) : list Call → Outcome → Prop :=
| steps_no_token :
    token = "" →
    steps client token createReq [] (Failure missingToken)
| steps_create_fails droplet resp err :
    token ≠ "" →
    godo.Droplets_Create client createReq = (droplet, resp, Some err) →
    steps client token createReq [CreateCall token createReq] (Failure err)
| steps_wait_fails created href err :
    token ≠ "" →
    creationOf client createReq created href →
    godo.WaitForActive client href = Some err →
    steps client token createReq
      [CreateCall token createReq; WaitForActiveCall token href]
      (Failure err)
| steps_get_fails created href droplet resp err :
    token ≠ "" →
    creationOf client createReq created href →
    godo.WaitForActive client href = None →
    godo.Droplets_Get client (godo.droplet_ID created)
    = (droplet, resp, Some err) →
    steps client token createReq
      [CreateCall token createReq; WaitForActiveCall token href;
       GetCall token (godo.droplet_ID created)]
      (Failure err)
| steps_public_fails created href droplet resp pubIP err :
    token ≠ "" →
    creationOf client createReq created href →
    godo.WaitForActive client href = None →
    godo.Droplets_Get client (godo.droplet_ID created)
    = (Some droplet, resp, None) →
    PublicIPv4 droplet = (pubIP, Some err) →
    steps client token createReq
      [CreateCall token createReq; WaitForActiveCall token href;
       GetCall token (godo.droplet_ID created)]
      (Failure err)
| steps_private_fails created href droplet resp pubIP privIP err :
    token ≠ "" →
    creationOf client createReq created href →
    godo.WaitForActive client href = None →
    godo.Droplets_Get client (godo.droplet_ID created)
    = (Some droplet, resp, None) →
    PublicIPv4 droplet = (pubIP, None) →
    PrivateIPv4 droplet = (privIP, Some err) →
    steps client token createReq
      [CreateCall token createReq; WaitForActiveCall token href;
       GetCall token (godo.droplet_ID created)]
      (Failure err)
| steps_succeed created href droplet resp pubIP privIP size region :
    token ≠ "" →
    creationOf client createReq created href →
    godo.WaitForActive client href = None →
    godo.Droplets_Get client (godo.droplet_ID created)
    = (Some droplet, resp, None) →
    PublicIPv4 droplet = (pubIP, None) →
    PrivateIPv4 droplet = (privIP, None) →
    godo.droplet_Size droplet = Some size →
    godo.droplet_Region droplet = Some region →
    steps client token createReq
      [CreateCall token createReq; WaitForActiveCall token href;
       GetCall token (godo.droplet_ID created)]
      (Success droplet size region pubIP privIP).

(** The answers of the API carry every part the task reads: a successful
    creation comes with the droplet and at least one action link, a
    successful get with the droplet, its size and its region. *)
Definition answersComplete (client : godo.Client)
    (createReq : godo.DropletCreateRequest) : Prop :=
  (∀ droplet resp,
      godo.Droplets_Create client createReq = (droplet, resp, None) →
      ∃ created href,
        droplet = Some created ∧ creationOf client createReq created href)
  ∧ (∀ id droplet resp,
      godo.Droplets_Get client id = (droplet, resp, None) →
      ∃ d, droplet = Some d
           ∧ is_Some (godo.droplet_Size d)
           ∧ is_Some (godo.droplet_Region d)).


(** The message of an outcome. *)
Definition outcomeMsg (o : Outcome) : string :=
  match o with
  | Failure err => dropletErrorMsg err
  | Success droplet size region pubIP privIP =>
      successMsg droplet size region pubIP privIP
  end.

(** The phase an outcome leads to. *)
Definition outcomePhase (o : Outcome) : Phase :=
  match o with
  | Failure _ => Failed
  | Success _ _ _ _ _ => Succeeded
  end.

(** The parts of an outcome that its message shows, each as rendered. *)
Definition outcomeParts (o : Outcome) : list string :=
  match o with
  | Failure err => [Render placeholderStyle (godo.Error err)]
  | Success droplet size region pubIP privIP =>
      [ Render placeholderStyle (godo.droplet_Name droplet);
        Render placeholderStyle ("$" +:+ Sprintf_2f (godo.PriceMonthly size));
        Render placeholderStyle (godo.region_Name region);
        Render placeholderStyle (godo.size_Slug size);
        Render placeholderStyle pubIP;
        Render placeholderStyle privIP ]
  end.

End Outcomes.

(** ** Measures of models and runs *)

Section Measures.
Context {Op : Opaque} {Libs : Libraries}.

(** The index is on an input or on the submit control. *)
Definition inRange (m : model) : Prop := 0 ≤ focusIndex m ≤ len m.

(** The inputs are as the focus loop leaves them for the model's index. *)
Definition focusSettled (m : model) : Prop :=
  inputs m = (imap (refocus (focusIndex m)) (inputs m)).*1.

(** Steps forward less steps back. *)
Definition netAdvance (keys : list FocusKey) : Z :=
  foldr (λ k n, (if advances k then 1 else -1) + n) 0 keys.

(** What a focus key never writes of an input. *)
Definition fieldData (t : textinput.Model)
  : string * string * string * Z
    * (lipgloss.Style * lipgloss.Style * textinput.CursorMode) :=
  (textinput.Prompt t, textinput.Placeholder t, textinput.value t,
   textinput.CharLimit t,
   (textinput.PlaceholderStyle t, textinput.CursorStyle t,
    textinput.cursorMode t)).

End Measures.

(** The link of the first action of a response, if it has one. *)
Definition firstActionLink (resp : option godo.Response) : option string :=
  r ← resp; links ← godo.resp_Links r; godo.HREF <$> head (godo.Actions links).

(** The calls of a run that gets through every step: the creation, the wait
    on the first action link of its response, the get of the droplet it
    created. *)
Definition plannedCalls (client : godo.Client) (token : string)
    (createReq : godo.DropletCreateRequest) : list Call :=
  let '(created, resp, _) := godo.Droplets_Create client createReq in
  [CreateCall token createReq;
   WaitForActiveCall token (default "" (firstActionLink resp));
   GetCall token (from_option godo.droplet_ID 0 created)].

(** A decimal numeral: an optional sign, then one or more digits and nothing
    else. *)
Definition isDigit (c : ascii) : bool :=
  (48 <=? Z.of_N (N_of_ascii c)) && (Z.of_N (N_of_ascii c) <=? 57).

Fixpoint allDigits (s : string) : bool :=
  match s with
  | EmptyString => true
  | String c s => isDigit c && allDigits s
  end.

Definition isNumeral (s : string) : bool :=
  match s with
  | EmptyString => false
  | String c rest =>
      if Ascii.eqb c "-" || Ascii.eqb c "+"
      then negb (String.eqb rest "") && allDigits rest
      else allDigits s
  end.

(** ** A plain terminal and a small API, to run the program on *)

Definition plainOpaque : Opaque := {| LibMsg := unit; LibCmd := unit |}.

(** The first address of the given type among the droplet's networks. *)
Definition addressOfType (type : string) (d : godo.Droplet)
  : string * option godo.error :=
  match godo.droplet_Networks d with
  | None => ("", Some (godo.errors_New "no networks have been defined"))
  | Some v4 =>
      (default ""
         (godo.IPAddress
            <$> head (filter (λ n, godo.Type_ n = type) v4)),
       None)
  end.

(** No colours; inputs and spinner that leave themselves as they are. *)
Definition plainLibraries : @Libraries plainOpaque :=
  {| Render := λ _ s, s;
     textinput_Update := λ t _, (t, tt : @LibCmd plainOpaque);
     textinput_View := λ t, textinput.Prompt t +:+ textinput.Value t;
     spinner_Update := λ s _, (s, tt : @LibCmd plainOpaque);
     spinner_View := λ _, "...";
     Sprintf_2f := λ _, "5.00";
     PublicIPv4 := addressOfType "public";
     PrivateIPv4 := addressOfType "private" |}.

Definition demoDroplet : godo.Droplet :=
  {| godo.droplet_ID := 7;
     godo.droplet_Name := "web-001";
     godo.droplet_Size :=
       Some {| godo.size_Slug := "s-1vcpu-1gb"; godo.PriceMonthly := 5%float |};
     godo.droplet_Region := Some {| godo.region_Name := "New York 3" |};
     godo.droplet_Networks :=
       Some [ {| godo.IPAddress := "203.0.113.7"; godo.Type_ := "public" |};
              {| godo.IPAddress := "10.0.0.7"; godo.Type_ := "private" |} ] |}.

(** An API on which every step succeeds. *)
Definition demoClient : godo.Client :=
  {| godo.Droplets_Create := λ _,
       (Some demoDroplet,
        Some {| godo.resp_Links :=
                  Some {| godo.Actions := [ {| godo.HREF := "/v2/actions/1" |} ] |} |},
        None);
     godo.WaitForActive := λ _, None;
     godo.Droplets_Get := λ _, (Some demoDroplet, None, None) |}.

(** An API whose answer to a creation carries no action link. *)
Definition noLinkClient : godo.Client :=
  {| godo.Droplets_Create := λ _,
       (Some demoDroplet,
        Some {| godo.resp_Links := Some {| godo.Actions := [] |} |},
        None);
     godo.WaitForActive := godo.WaitForActive demoClient;
     godo.Droplets_Get := godo.Droplets_Get demoClient |}.

(** An API that rejects every creation. *)
Definition rejectingClient : godo.Client :=
  {| godo.Droplets_Create := λ _,
       (None, None, Some (godo.errors_New "unprocessable_entity"));
     godo.WaitForActive := godo.WaitForActive demoClient;
     godo.Droplets_Get := godo.Droplets_Get demoClient |}.

(** The image input of the initial model after 12345 has been typed. *)
Definition typedImageInput : textinput.Model :=
  {| textinput.Prompt := "Image: ";
     textinput.Placeholder := "ubuntu-20-04-x64";
     textinput.PromptStyle := lipgloss.NewStyle;
     textinput.TextStyle := lipgloss.NewStyle;
     textinput.PlaceholderStyle := placeholderStyle;
     textinput.CursorStyle := cursorStyle;
     textinput.CharLimit := 32;
     textinput.value := "12345";
     textinput.focus := true;
     textinput.blink := false;
     textinput.cursorMode := textinput.CursorBlink |}.

(** The request made of the placeholders alone. *)
Definition placeholderRequest : godo.DropletCreateRequest :=
  {| godo.Name := "web-001";
     godo.Region := "nyc3";
     godo.Size := "s-1vcpu-1gb";
     godo.Image := {| godo.ID := 0; godo.Slug := "ubuntu-20-04-x64" |} |}.

(** ** Properties *)

(** *** [strconv.Atoi] reads back what [strconv.Itoa] writes *)

Lemma digits_string_of_uint (d : Decimal.uint) (acc : Z) :
  strconv.digits acc (NilEmpty.string_of_uint d)
  = Some (acc * 10 ^ Z.of_N (DecimalPos.Unsigned.usize d)
          + Z.of_N (DecimalPos.Unsigned.of_lu (Decimal.rev d))).
Proof.
  revert acc. induction d; intros acc;
    [ cbn; f_equal; lia | .. ];
    cbn [NilEmpty.string_of_uint strconv.digits];
    (change (strconv.digit _) with (Some 0)
     || change (strconv.digit _) with (Some 1)
     || change (strconv.digit _) with (Some 2)
     || change (strconv.digit _) with (Some 3)
     || change (strconv.digit _) with (Some 4)
     || change (strconv.digit _) with (Some 5)
     || change (strconv.digit _) with (Some 6)
     || change (strconv.digit _) with (Some 7)
     || change (strconv.digit _) with (Some 8)
     || change (strconv.digit _) with (Some 9));
    cbn [mbind option_bind]; rewrite IHd; f_equal;
    remember (DecimalPos.Unsigned.of_lu (Decimal.rev d)) as r eqn:Hr;
    unfold Decimal.rev; cbn [Decimal.revapp DecimalPos.Unsigned.usize];
    rewrite (DecimalPos.Unsigned.of_lu_revapp d), <- Hr;
    cbn [DecimalPos.Unsigned.of_lu];
    rewrite N2Z.inj_succ, Z.pow_succ_r by lia;
    rewrite N2Z.inj_add, N2Z.inj_mul, N2Z.inj_pow;
    rewrite ?N.mul_0_r, ?N.add_0_r; cbn [Z.of_N]; ring.
Qed.

Lemma string_of_uint_unsigned (d : Decimal.uint) :
  d ≠ Decimal.Nil →
  ∃ c s, NilEmpty.string_of_uint d = String c s
         ∧ Ascii.eqb c "-" = false ∧ Ascii.eqb c "+" = false.
Proof.
  destruct d; [done|..]; intros _; eexists _, _; repeat split.
Qed.

(** The digits of a positive number, read with or without a minus sign. *)
Lemma Atoi_digits_of_positive (p : positive) :
  ∃ c s,
    NilZero.string_of_uint (Pos.to_uint p) = String c s
    ∧ Ascii.eqb c "-" = false ∧ Ascii.eqb c "+" = false
    ∧ strconv.digits 0 (String c s) = Some (Z.pos p).
Proof.
  pose proof (DecimalPos.Unsigned.to_uint_nonnil p) as Hnil.
  assert (Hs : NilZero.string_of_uint (Pos.to_uint p)
               = NilEmpty.string_of_uint (Pos.to_uint p)).
  { by destruct (Pos.to_uint p). }
  destruct (string_of_uint_unsigned _ Hnil) as (c & s & Heq & Hm & Hp).
  pose proof (digits_string_of_uint (Pos.to_uint p) 0) as Hd.
  rewrite <- DecimalPos.Unsigned.of_uint_alt, DecimalPos.Unsigned.of_to in Hd.
  exists c, s. rewrite Hs, <- Heq, Hd.
  split; [reflexivity|]. split; [exact Hm|]. split; [exact Hp|].
  reflexivity.
Qed.

Lemma Atoi_Itoa (z : Z) :
  minInt ≤ z ≤ maxInt → strconv.Atoi (strconv.Itoa z) = Some z.
Proof.
  intros Hz. unfold strconv.Itoa.
  destruct z as [|p|p]; [reflexivity|..];
    cbn [Z.to_int NilZero.string_of_int];
    destruct (Atoi_digits_of_positive p) as (c & s & Heq & Hm & Hp & Hd);
    rewrite Heq; unfold strconv.Atoi.
  - rewrite Hm, Hp. cbn [orb]. rewrite Hd. cbn [mbind option_bind].
    destruct (Z.leb_spec minInt (Z.pos p)); [|lia].
    destruct (Z.leb_spec (Z.pos p) maxInt); [|lia]. reflexivity.
  - change (Ascii.eqb "-" "-") with true. cbn [orb].
    rewrite Hd. cbn [mbind option_bind].
    change (- Z.pos p) with (Z.neg p).
    destruct (Z.leb_spec minInt (Z.neg p)); [|lia].
    destruct (Z.leb_spec (Z.neg p) maxInt); [|lia]. reflexivity.
Qed.

Section Properties.
Context {Op : Opaque} {Libs : Libraries}.

Lemma wrap_small z : minInt ≤ z ≤ maxInt → wrap z = z.
Proof.
  unfold minInt, maxInt, wrap. intros Hz.
  rewrite Z.mod_small by lia. lia.
Qed.

(** *** The focus loop *)

Lemma refocus_focus fi i t :
  textinput.focus (refocus fi i t).1 = (Z.of_nat i =? fi).
Proof.
  unfold refocus. destruct (Z.of_nat i =? fi); reflexivity.
Qed.

Lemma refocus_Value fi i t :
  textinput.Value (refocus fi i t).1 = textinput.Value t
  ∧ textinput.Placeholder (refocus fi i t).1 = textinput.Placeholder t.
Proof.
  unfold refocus. destruct (Z.of_nat i =? fi); split; reflexivity.
Qed.

Lemma refocus_dispatched fi i t : dispatched (refocus fi i t).2 = 0%nat.
Proof.
  unfold refocus. destruct (Z.of_nat i =? fi); [|reflexivity].
  cbn. destruct (textinput.isBlink _); reflexivity.
Qed.

(** After the loop the only input that has the focus is the one at the
    index, if there is one. *)
Lemma refocus_count fi (l : list textinput.Model) (k : nat) :
  length (filter (λ t, textinput.focus t = true)
            (imap (λ i, refocus fi (k + i)) l).*1)
  = if decide (Z.of_nat k ≤ fi < Z.of_nat (k + length l)) then 1%nat else 0%nat.
Proof.
  revert k. induction l as [|t l IH]; intros k.
  - cbn. case_decide; [lia | reflexivity].
  - cbn [imap fmap list_fmap length].
    rewrite filter_cons, refocus_focus.
    assert (Hext : imap ((λ i, refocus fi (k + i)) ∘ S) l
                   = imap (λ i, refocus fi (S k + i)) l).
    { apply imap_ext. intros i x _. cbn. f_equal. lia. }
    rewrite Hext. clear Hext.
    destruct (Z.eqb_spec (Z.of_nat (k + 0)) fi) as [Heq|Hne].
    + rewrite decide_True by reflexivity. cbn [length].
      rewrite IH. rewrite decide_False by lia. rewrite decide_True by lia.
      reflexivity.
    + rewrite decide_False by discriminate.
      rewrite IH. repeat case_decide; try reflexivity; lia.
Qed.

Lemma refocus_count0 fi (l : list textinput.Model) :
  length (filter (λ t, textinput.focus t = true) (imap (refocus fi) l).*1)
  = if decide (0 ≤ fi < Z.of_nat (length l)) then 1%nat else 0%nat.
Proof.
  pose proof (refocus_count fi l 0) as Hcount. cbn in Hcount. exact Hcount.
Qed.

(** *** Steps that move the focus *)

(** [Update] by its branches. *)
Lemma Update_cases m msg :
  Update m msg
  = match msg with
    | KeyMsg s =>
        if isCancelKey s then Some (m, tea_Quit)
        else if isFocusKey s then
          if submits m msg then submitted m <$> setDropletCreate (inputs m)
          else Some (moveFocus ((s =? "up")%string || (s =? "shift+tab")%string) m)
        else Some (updateRest m msg)
    | dropletMsg text => Some (set_finalMsg text m, tea_Quit)
    | OtherMsg _ => Some (updateRest m msg)
    end.
Proof.
  destruct msg as [s|text|o]; try reflexivity.
  unfold Update, submits.
  destruct (isCancelKey s); [reflexivity|].
  destruct (isFocusKey s); [|reflexivity].
  destruct (_ && _).
  { by destruct (setDropletCreate _). }
  unfold moveFocus, cycled.
  destruct ((s =? "up")%string || (s =? "shift+tab")%string);
    lazy zeta;
    change (len (set_focusIndex ?v m)) with (len m);
    change (focusIndex (set_focusIndex ?v m)) with v;
    (destruct (_ >? len m); [reflexivity|]);
    (destruct (_ <? 0); reflexivity).
Qed.

Lemma Update_focus_key (k : FocusKey) m :
  Update m (KeyMsg (keyName k)) = Some (moveFocus (negb (advances k)) m).
Proof. rewrite Update_cases. by destruct k. Qed.

Lemma Update_enter_field m :
  focusIndex m ≠ len m →
  Update m (KeyMsg "enter") = Some (moveFocus false m).
Proof.
  intros Hne%Z.eqb_neq. rewrite Update_cases. cbn. by rewrite Hne.
Qed.

Lemma Update_enter_submit m :
  focusIndex m = len m →
  Update m (KeyMsg "enter") = submitted m <$> setDropletCreate (inputs m).
Proof.
  intros Heq%Z.eqb_eq. rewrite Update_cases. cbn. by rewrite Heq.
Qed.

Lemma cycled_mod back m :
  wf m →
  cycled back m
  = if back then (focusIndex m - 1 + 5) mod 5 else (focusIndex m + 1) mod 5.
Proof.
  intros [Hlen Hfi]. unfold cycled, len. rewrite Hlen.
  assert (Hcases : focusIndex m = 0 ∨ focusIndex m = 1 ∨ focusIndex m = 2
                   ∨ focusIndex m = 3 ∨ focusIndex m = 4) by lia.
  destruct back;
    destruct Hcases as [-> | [-> | [-> | [-> | ->]]]]; reflexivity.
Qed.

Lemma cycled_range back m : wf m → 0 ≤ cycled back m ≤ 4.
Proof.
  intros Hwf. rewrite cycled_mod by done.
  destruct back.
  - pose proof (Z.mod_pos_bound (focusIndex m - 1 + 5) 5). lia.
  - pose proof (Z.mod_pos_bound (focusIndex m + 1) 5). lia.
Qed.

Lemma dispatched_BatchOf (l : list Cmd) :
  dispatched (tea_BatchOf l) = sum_list (dispatched <$> l).
Proof.
  induction l as [|c l IH]; [reflexivity|].
  cbn in *. by rewrite IH.
Qed.

Lemma dispatched_Batch (l : list Cmd) :
  dispatched (tea_Batch l) = sum_list (dispatched <$> l).
Proof. destruct l; [reflexivity|]. apply dispatched_BatchOf. Qed.

Lemma dispatched_Batch_zero (l : list Cmd) :
  Forall (λ c, dispatched c = 0%nat) l → dispatched (tea_Batch l) = 0%nat.
Proof.
  intros Hl. rewrite dispatched_Batch.
  induction Hl as [|c l Hc _ IH]; [reflexivity|].
  cbn. by rewrite Hc, IH.
Qed.

Lemma moveFocus_dispatched back m : dispatched (moveFocus back m).2 = 0%nat.
Proof.
  unfold moveFocus. cbn [snd]. apply dispatched_Batch_zero.
  apply Forall_forall. intros c Hc.
  apply list_elem_of_fmap in Hc as [[t c'] [-> Hin]].
  apply elem_of_lookup_imap in Hin as (i & t0 & Heq & _).
  cbn. replace c' with (refocus (cycled back m) i t0).2 by (by rewrite <- Heq).
  apply refocus_dispatched.
Qed.

Lemma moveFocus_inputs back m :
  inputs (moveFocus back m).1 = (imap (refocus (cycled back m)) (inputs m)).*1.
Proof. reflexivity. Qed.

Lemma moveFocus_focusIndex back m :
  focusIndex (moveFocus back m).1 = cycled back m.
Proof. reflexivity. Qed.

Lemma moveFocus_wf back m : wf m → wf (moveFocus back m).1.
Proof.
  intros Hwf. split.
  - rewrite moveFocus_inputs, length_fmap, length_imap. apply Hwf.
  - rewrite moveFocus_focusIndex. by apply cycled_range.
Qed.

Lemma moveFocus_focusedCount back m :
  wf m → focusedCount (moveFocus back m).1 = 1%nat.
Proof.
  intros Hwf. pose proof (cycled_range back m Hwf) as Hr.
  destruct Hwf as [Hlen _].
  unfold focusedCount, submitFocused, len.
  rewrite moveFocus_inputs, moveFocus_focusIndex.
  rewrite refocus_count0, length_fmap, length_imap, Hlen.
  case_decide; destruct (Z.eqb_spec (cycled back m) (Z.of_nat 4)); lia.
Qed.

Lemma initialModel_wf : wf initialModel.
Proof. split; [reflexivity | cbn; lia]. Qed.

Lemma initialModel_focusedCount : focusedCount initialModel = 1%nat.
Proof. reflexivity. Qed.

Lemma setDropletCreate_total (l : list textinput.Model) :
  length l = 4%nat → is_Some (setDropletCreate l).
Proof.
  intros Hlen.
  destruct l as [|i0 [|i1 [|i2 [|i3 [|i4 l]]]]]; try discriminate.
  eexists. reflexivity.
Qed.

Lemma updateRest_wf m msg : wf m → wf (updateRest m msg).1.
Proof.
  intros [Hlen Hfi]. unfold updateRest, updateInputs.
  destruct (spinner_Update _ _) as [sp spinnerCmd]. cbn.
  split; [|done]. cbn. by rewrite !length_fmap.
Qed.

(** Every step keeps the four inputs and an index among them or on the
    submit control. *)
Lemma Update_wf m msg m' c : wf m → Update m msg = Some (m', c) → wf m'.
Proof.
  intros Hwf Hstep. rewrite Update_cases in Hstep.
  destruct msg as [s|text|o].
  - destruct (isCancelKey s); [by simplify_eq|].
    destruct (isFocusKey s).
    + destruct (submits m (KeyMsg s)).
      * destruct (setDropletCreate _); [|done].
        unfold submitted in Hstep. simplify_eq/=. exact Hwf.
      * simplify_eq.
        replace m' with (moveFocus ((s =? "up")%string
                                     || (s =? "shift+tab")%string) m).1
          by (by rewrite Hstep).
        by apply moveFocus_wf.
    + simplify_eq.
      replace m' with (updateRest m (KeyMsg s)).1 by (by rewrite Hstep).
      by apply updateRest_wf.
  - simplify_eq. exact Hwf.
  - simplify_eq.
    replace m' with (updateRest m (OtherMsg o)).1 by (by rewrite Hstep).
    by apply updateRest_wf.
Qed.

Lemma reachable_wf m : reachable m → wf m.
Proof.
  induction 1 as [|m msg m' c _ IH Hstep].
  - apply initialModel_wf.
  - by eapply Update_wf.
Qed.

(** A run of focus keys: it never panics, and keeps the shape and the
    single focus. *)
Lemma run_focus_keys (keys : list FocusKey) m :
  wf m →
  ∃ m' cs, run m (KeyMsg ∘ keyName <$> keys) = Some (m', cs)
    ∧ wf m'
    ∧ (focusedCount m = 1%nat → focusedCount m' = 1%nat)
    ∧ Forall (λ c, dispatched c = 0%nat) cs.
Proof.
  revert m. induction keys as [|k keys IH]; intros m Hwf.
  - exists m, []. split; [reflexivity|]. split; [exact Hwf|].
    split; [tauto | constructor].
  - cbn [fmap list_fmap run compose].
    rewrite Update_focus_key.
    pose proof (moveFocus_wf (negb (advances k)) m Hwf) as Hwf1.
    pose proof (moveFocus_focusedCount (negb (advances k)) m Hwf) as Hcount1.
    pose proof (moveFocus_dispatched (negb (advances k)) m) as Hd1.
    destruct (moveFocus (negb (advances k)) m) as [m1 c1]. cbn in *.
    destruct (IH m1 Hwf1) as (m' & cs & Hrun & Hwf' & Hcount' & Hd').
    exists m', (c1 :: cs).
    change (list_fmap FocusKey Msg (KeyMsg ∘ keyName) keys)
      with (KeyMsg ∘ keyName <$> keys).
    rewrite Hrun. cbn. split; [reflexivity|]. split; [exact Hwf'|].
    split; [auto | by constructor].
Qed.

(** A run of [n] keys that advance the focus moves the index by [n] around
    the cycle of five. *)
Lemma run_advances (keys : list FocusKey) m :
  wf m →
  Forall (λ k, advances k = true) keys →
  ∃ m' cs, run m (KeyMsg ∘ keyName <$> keys) = Some (m', cs)
    ∧ focusIndex m' = (focusIndex m + Z.of_nat (length keys)) mod 5.
Proof.
  intros Hwf Hkeys. revert m Hwf.
  induction Hkeys as [|k keys Hk _ IH]; intros m Hwf.
  - exists m, []. split; [reflexivity|].
    destruct Hwf as [_ Hfi]. cbn. rewrite Z.add_0_r, Z.mod_small; lia.
  - cbn [fmap list_fmap run compose].
    rewrite Update_focus_key, Hk. cbn [negb].
    pose proof (moveFocus_wf false m Hwf) as Hwf1.
    pose proof (cycled_mod false m Hwf) as Hfi1.
    change (cycled false m) with (focusIndex (moveFocus false m).1) in Hfi1.
    destruct (moveFocus false m) as [m1 c1]. cbn in *.
    destruct (IH m1 Hwf1) as (m' & cs & Hrun & Hfi').
    exists m', (c1 :: cs).
    change (list_fmap FocusKey Msg (KeyMsg ∘ keyName) keys)
      with (KeyMsg ∘ keyName <$> keys).
    rewrite Hrun. cbn. split; [reflexivity|].
    rewrite Hfi', Hfi1, Zplus_mod_idemp_l. f_equal. lia.
Qed.

(** Enter pressed on the fields up to the submit control. *)
Lemma run_enter_to_submit (n : nat) m :
  wf m →
  focusIndex m + Z.of_nat n = 4 →
  ∃ m' cs, run m (replicate n (KeyMsg "enter")) = Some (m', cs)
    ∧ wf m'
    ∧ focusIndex m' = 4
    ∧ creating m' = creating m
    ∧ Forall (λ c, dispatched c = 0%nat) cs.
Proof.
  revert m. induction n as [|n IH]; intros m Hwf Hn.
  - exists m, []. split; [reflexivity|]. split; [exact Hwf|].
    split; [lia|]. split; [reflexivity | constructor].
  - assert (Hne : focusIndex m ≠ len m).
    { destruct Hwf as [Hlen _]. unfold len. rewrite Hlen. lia. }
    cbn [replicate run]. rewrite (Update_enter_field m Hne).
    pose proof (moveFocus_wf false m Hwf) as Hwf1.
    pose proof (cycled_mod false m Hwf) as Hfi1.
    pose proof (moveFocus_dispatched false m) as Hd1.
    change (cycled false m) with (focusIndex (moveFocus false m).1) in Hfi1.
    assert (Hc1 : creating (moveFocus false m).1 = creating m) by reflexivity.
    destruct (moveFocus false m) as [m1 c1]. cbn in *.
    assert (Hfi1' : focusIndex m1 = focusIndex m + 1).
    { rewrite Hfi1. destruct Hwf as [_ Hfi]. rewrite Z.mod_small; lia. }
    destruct (IH m1 Hwf1) as (m' & cs & Hrun & Hwf' & Hfi' & Hc' & Hd');
      [lia|].
    exists m', (c1 :: cs). rewrite Hrun. cbn.
    split; [reflexivity|]. split; [exact Hwf'|]. split; [exact Hfi'|].
    split; [congruence | by constructor].
Qed.

(** *** The focus cycle *)

(** C6. After any sequence of advance-focus (tab, down) and retreat-focus
    (shift+tab, up) keys handled from the initial model, the form still has
    its four inputs, the focus index lies between 0 and the number of inputs
    (which stands for the submit control), and exactly one of the four
    inputs and the submit control has the focus. The empty sequence and
    every prefix are such sequences, so this holds at every point. *)
Theorem focus_index_in_range_one_focused (keys : list FocusKey) :
  ∃ m cs,
    run initialModel (KeyMsg ∘ keyName <$> keys) = Some (m, cs)
    ∧ length (inputs m) = 4%nat
    ∧ 0 ≤ focusIndex m ≤ Z.of_nat (length (inputs m))
    ∧ focusedCount m = 1%nat.
Proof.
  destruct (run_focus_keys keys initialModel initialModel_wf)
    as (m & cs & Hrun & [Hlen Hfi] & Hcount & _).
  exists m, cs. split; [exact Hrun|]. split; [exact Hlen|].
  split; [rewrite Hlen; lia|].
  apply Hcount, initialModel_focusedCount.
Qed.

(** C7. In every reachable model a key that advances the focus sets the
    index to (focus index + 1) mod 5 and a key that retreats sets it to
    (focus index - 1 + 5) mod 5; hence any five advancing keys bring the
    index back to where it was. *)
Theorem focus_cycle_of_five m :
  reachable m →
  (∀ k, ∃ m' c,
      Update m (KeyMsg (keyName k)) = Some (m', c)
      ∧ focusIndex m'
        = if advances k then (focusIndex m + 1) mod 5
          else (focusIndex m - 1 + 5) mod 5)
  ∧ (∀ keys,
      length keys = 5%nat →
      Forall (λ k, advances k = true) keys →
      ∃ m' cs,
        run m (KeyMsg ∘ keyName <$> keys) = Some (m', cs)
        ∧ focusIndex m' = focusIndex m).
Proof.
  intros Hwf%reachable_wf. split.
  - intros k. rewrite Update_focus_key. eexists _, _. split; [reflexivity|].
    cbn [moveFocus focusIndex]. rewrite cycled_mod by done.
    by destruct k.
  - intros keys Hlen Hkeys.
    destruct (run_advances keys m Hwf Hkeys) as (m' & cs & Hrun & Hfi).
    exists m', cs. split; [exact Hrun|].
    rewrite Hfi, Hlen. destruct Hwf as [_ Hr].
    change (Z.of_nat 5) with (1 * 5).
    rewrite Z.mod_add by lia. apply Z.mod_small. lia.
Qed.

(** C9. Whatever the model (so in every phase) each cancel key, ctrl+c or
    esc, returns the model as it was together with the quit command, which
    starts no submission task and carries no message; the step reads
    nothing of the model, so it is the same step while editing and while
    submitting. *)
Theorem cancel_quits_in_every_phase m key :
  key = "ctrl+c" ∨ key = "esc" →
  Update m (KeyMsg key) = Some (m, tea_Quit)
  ∧ dispatched tea_Quit = 0%nat
  ∧ ∀ creating',
      Update (set_creating creating' m) (KeyMsg key)
      = Some (set_creating creating' m, tea_Quit).
Proof.
  intros [-> | ->]; repeat split.
Qed.

(** C10. In a reachable model whose focus is on one of the inputs, enter is
    handled exactly as tab and down are: the index goes up by one and no
    task is started. Pressed as many times as there are inputs left, enter
    reaches the submit control without starting a task, and the next enter
    is the one that submits. *)
Theorem enter_on_a_field_advances m :
  reachable m →
  focusIndex m < len m →
  Update m (KeyMsg "enter") = Update m (KeyMsg "tab")
  ∧ Update m (KeyMsg "enter") = Update m (KeyMsg "down")
  ∧ (∃ m' c,
      Update m (KeyMsg "enter") = Some (m', c)
      ∧ focusIndex m' = focusIndex m + 1
      ∧ creating m' = creating m
      ∧ dispatched c = 0%nat)
  ∧ (∃ m' cs d,
      run m (replicate (Z.to_nat (len m - focusIndex m)) (KeyMsg "enter"))
      = Some (m', cs)
      ∧ focusIndex m' = len m'
      ∧ creating m' = creating m
      ∧ Forall (λ c, dispatched c = 0%nat) cs
      ∧ Update m' (KeyMsg "enter") = Some (submitted m' d)
      ∧ dispatched (submitted m' d).2 = 1%nat).
Proof.
  intros Hwf%reachable_wf Hlt.
  assert (Hlen : len m = 4) by (unfold len; by rewrite (proj1 Hwf)).
  rewrite (Update_enter_field m) by lia.
  rewrite (Update_focus_key Tab), (Update_focus_key Down). cbn [advances negb].
  split; [reflexivity|]. split; [reflexivity|]. split.
  - exists (moveFocus false m).1, (moveFocus false m).2.
    split; [by destruct (moveFocus false m)|].
    split; [|split; [reflexivity | apply moveFocus_dispatched]].
    change (focusIndex (moveFocus false m).1) with (cycled false m).
    rewrite cycled_mod by done.
    destruct Hwf as [_ Hfi]. apply Z.mod_small. lia.
  - destruct (run_enter_to_submit (Z.to_nat (len m - focusIndex m)) m Hwf)
      as (m' & cs & Hrun & Hwf' & Hfi' & Hc' & Hd'); [destruct Hwf; lia|].
    assert (Hlen' : len m' = 4) by (unfold len; by rewrite (proj1 Hwf')).
    destruct (setDropletCreate_total (inputs m') (proj1 Hwf')) as [d Hd].
    exists m', cs, d. split; [exact Hrun|]. split; [congruence|].
    split; [exact Hc'|]. split; [exact Hd'|]. split; [|reflexivity].
    rewrite Update_enter_submit by congruence. by rewrite Hd.
Qed.

(** *** The request built at submission *)

Lemma orPlaceholder_resolved (t : textinput.Model) :
  (if (textinput.Value t =? "")%string then textinput.Placeholder t
   else textinput.Value t)
  = resolved_value t.
Proof.
  unfold resolved_value.
  destruct (String.eqb_spec (textinput.Value t) ""); case_decide; done.
Qed.

(** The request is made of the resolved values of the first four inputs. *)
Lemma setDropletCreate_resolved i0 i1 i2 i3 (rest : list textinput.Model) :
  setDropletCreate (i0 :: i1 :: i2 :: i3 :: rest)
  = Some {| godo.Name := resolved_value i0;
            godo.Region := resolved_value i1;
            godo.Size := resolved_value i2;
            godo.Image := imageReference (resolved_value i3) |}.
Proof.
  unfold setDropletCreate, imageReference. cbn.
  rewrite !orPlaceholder_resolved. reflexivity.
Qed.

Lemma resolved_value_empty (t : textinput.Model) :
  textinput.Value t = "" → resolved_value t = textinput.Placeholder t.
Proof. intros Hv. unfold resolved_value. by rewrite decide_True. Qed.

Lemma resolved_value_nonempty (t : textinput.Model) :
  textinput.Value t ≠ "" → resolved_value t = textinput.Value t.
Proof. intros Hv. unfold resolved_value. by rewrite decide_False. Qed.

(** C3. When the four inputs carry the placeholders of the initial model
    and all four values are empty, enter on the submit control builds and
    dispatches the request with name web-001, region nyc3, size s-1vcpu-1gb
    and the image slug ubuntu-20-04-x64 (and no numeric image id). *)
Theorem empty_form_submits_placeholders m :
  textinput.Placeholder <$> inputs m
  = ["web-001"; "nyc3"; "s-1vcpu-1gb"; "ubuntu-20-04-x64"] →
  textinput.Value <$> inputs m = [""; ""; ""; ""] →
  focusIndex m = len m →
  Update m (KeyMsg "enter") = Some (submitted m placeholderRequest)
  ∧ droplet (submitted m placeholderRequest).1 = Some placeholderRequest
  ∧ (submitted m placeholderRequest).2
    = tea_Batch [dropletCreate placeholderRequest; spinner_Tick].
Proof.
  intros Hp Hv Hfi. split; [|split; reflexivity].
  rewrite Update_enter_submit by done.
  destruct (inputs m) as [|i0 [|i1 [|i2 [|i3 [|i4 l]]]]]; try discriminate.
  rewrite setDropletCreate_resolved.
  injection Hp as Hp0 Hp1 Hp2 Hp3. injection Hv as Hv0 Hv1 Hv2 Hv3.
  rewrite !resolved_value_empty by done.
  rewrite Hp0, Hp1, Hp2, Hp3. reflexivity.
Qed.

(** C4. The image of the request built from the inputs is decided by
    [strconv.Atoi] on the resolved image string: when it parses, the image
    is the numeric identifier it parses to (with no slug), otherwise it is
    the string itself as a slug (with identifier 0, the zero value). The
    decimal numeral of any [int] parses to that [int]; so 12345 gives the
    identifier 12345, and ubuntu-20-04-x64 gives the slug. *)
Theorem image_numeric_or_slug (l : list textinput.Model) i3 d :
  l !! 3%nat = Some i3 →
  setDropletCreate l = Some d →
  (∀ id, strconv.Atoi (resolved_value i3) = Some id →
         godo.Image d = {| godo.ID := id; godo.Slug := "" |})
  ∧ (strconv.Atoi (resolved_value i3) = None →
     godo.Image d = {| godo.ID := 0; godo.Slug := resolved_value i3 |})
  ∧ (∀ z, minInt ≤ z ≤ maxInt → resolved_value i3 = strconv.Itoa z →
          godo.Image d = {| godo.ID := z; godo.Slug := "" |})
  ∧ imageReference "12345" = {| godo.ID := 12345; godo.Slug := "" |}
  ∧ imageReference "ubuntu-20-04-x64"
    = {| godo.ID := 0; godo.Slug := "ubuntu-20-04-x64" |}.
Proof.
  intros Hi3 Hd.
  destruct l as [|i0 [|i1 [|i2 [|i3' l]]]]; try discriminate.
  rewrite setDropletCreate_resolved in Hd. cbn in Hi3. simplify_eq.
  cbn [godo.Image]. unfold imageReference.
  split; [intros id ->; reflexivity|].
  split; [intros ->; reflexivity|].
  split; [|split; reflexivity].
  intros z Hz ->. by rewrite Atoi_Itoa.
Qed.

(** C5. At submission each field of the request is the resolved value of
    its input: the stored value when that is not empty, the placeholder
    when it is; the image is read off the resolved value of the fourth
    input. The inputs of the model after the step are the inputs before
    it: no stored value changes. *)
Theorem resolved_values_at_submission m i0 i1 i2 i3 :
  inputs m = [i0; i1; i2; i3] →
  focusIndex m = len m →
  (∃ d m' c,
      Update m (KeyMsg "enter") = Some (m', c)
      ∧ droplet m' = Some d
      ∧ godo.Name d = resolved_value i0
      ∧ godo.Region d = resolved_value i1
      ∧ godo.Size d = resolved_value i2
      ∧ godo.Image d = imageReference (resolved_value i3)
      ∧ inputs m' = inputs m)
  ∧ (∀ t, t ∈ inputs m →
      (textinput.Value t ≠ "" → resolved_value t = textinput.Value t)
      ∧ (textinput.Value t = "" → resolved_value t = textinput.Placeholder t)).
Proof.
  intros Hin Hfi. split.
  - rewrite Update_enter_submit by done.
    rewrite Hin, setDropletCreate_resolved. cbn [fmap option_fmap option_map].
    eexists _, _, _. split; [reflexivity|]. cbn. by rewrite Hin.
  - intros t _. split.
    + apply resolved_value_nonempty.
    + apply resolved_value_empty.
Qed.

(** *** The submission task *)

Lemma String_app_assoc (a b c : string) : (a +:+ b) +:+ c = a +:+ b +:+ c.
Proof.
  induction a as [|x a IH]; [reflexivity|].
  change (String x ((a +:+ b) +:+ c) = String x (a +:+ b +:+ c)).
  by rewrite IH.
Qed.

Lemma contains_head (sub rest : string) : contains (sub +:+ rest) sub.
Proof. exists "", rest. reflexivity. Qed.

Lemma contains_skip (s sub first : string) :
  contains s sub → contains (first +:+ s) sub.
Proof.
  intros (before & after & ->). exists (first +:+ before), after.
  by rewrite String_app_assoc.
Qed.

Lemma String_app_nonempty (a b : string) : b ≠ "" → a +:+ b ≠ "".
Proof. intros Hb. destruct a; [exact Hb | discriminate]. Qed.

Lemma dropletErrorMsg_nonempty err : dropletErrorMsg err ≠ "".
Proof. unfold dropletErrorMsg. apply String_app_nonempty. discriminate. Qed.

Lemma successMsg_nonempty droplet size region pubIP privIP :
  successMsg droplet size region pubIP privIP ≠ "".
Proof. discriminate. Qed.

Lemma outcomeMsg_nonempty o : outcomeMsg o ≠ "".
Proof.
  destruct o; [apply dropletErrorMsg_nonempty | apply successMsg_nonempty].
Qed.

(** Every part of an outcome occurs in its message. *)
Lemma outcomeMsg_contains o :
  Forall (contains (outcomeMsg o)) (outcomeParts o).
Proof.
  destruct o; cbn [outcomeMsg outcomeParts];
    unfold dropletErrorMsg, successMsg;
    repeat apply Forall_cons_2; try apply Forall_nil_2;
    repeat first [apply contains_head | apply contains_skip].
Qed.

(** The final message arrives: it is stored, shown, and the program quits. *)
Lemma Update_dropletMsg m text :
  Update m (dropletMsg text) = Some (set_finalMsg text m, tea_Quit).
Proof. reflexivity. Qed.

Lemma View_final m text : text ≠ "" → View (set_finalMsg text m) = text.
Proof.
  intros Hne. unfold View. cbn [finalMsg set_finalMsg].
  apply String.eqb_neq in Hne. by rewrite Hne.
Qed.

Lemma outcome_phase m o : phase (set_finalMsg (outcomeMsg o) m) (outcomePhase o).
Proof.
  destruct o as [err|droplet size region pubIP privIP]; cbn.
  - by exists err.
  - by exists droplet, size, region, pubIP, privIP.
Qed.

(** The equations of the statements of a task. *)
Lemma bind_call {A B} (c : Call) (a : A) (f : A → Task B) calls :
  (call c a ≫= f) calls = f a (calls ++ [c]).
Proof. reflexivity. Qed.

Lemma bind_check_nil {B} (f : unit → Task B) calls :
  (check None ≫= f) calls = f () calls.
Proof. reflexivity. Qed.

Lemma bind_check_err {B} err (f : unit → Task B) calls :
  (check (Some err) ≫= f) calls = (calls, Return_ (dropletErrorMsg err)).
Proof. reflexivity. Qed.

Lemma bind_deref {A B} (a : A) (f : A → Task B) calls :
  (deref (Some a) ≫= f) calls = f a calls.
Proof. reflexivity. Qed.

Lemma bind_deref_nil {A B} (f : A → Task B) calls :
  (deref None ≫= f) calls = (calls, Crash).
Proof. reflexivity. Qed.

Lemma bind_index {A B} (l : list A) i (a : A) (f : A → Task B) calls :
  l !! i = Some a → (index l i ≫= f) calls = f a calls.
Proof. intros Hl. unfold index. by rewrite Hl. Qed.

Hint Rewrite @bind_call @bind_check_nil @bind_check_err @bind_deref
  @bind_deref_nil : task.

(** Where the answers are complete the task runs the steps in order and
    returns the message of their outcome. *)
Lemma runDropletCreate_steps NewFromToken env createReq :
  answersComplete (NewFromToken (Getenv env "DO_TOKEN")) createReq →
  ∃ calls o,
    steps (NewFromToken (Getenv env "DO_TOKEN")) (Getenv env "DO_TOKEN")
      createReq calls o
    ∧ runDropletCreate NewFromToken env createReq
      = (calls, Some (outcomeMsg o)).
Proof.
  intros [Hcreate Hget].
  unfold runDropletCreate, dropletCreateTask.
  set (token := Getenv env "DO_TOKEN") in *.
  destruct (String.eqb_spec token "") as [Hno|Htoken].
  { exists [], (Failure missingToken). split; [by constructor | reflexivity]. }
  set (client := NewFromToken token) in *.
  unfold runTask. task_steps.
  destruct (godo.Droplets_Create client createReq) as [[d r] [err|]] eqn:Hc.
  { task_steps. eexists _, (Failure err).
    split; [by econstructor | reflexivity]. }
  destruct (Hcreate d r eq_refl) as (created & href & -> & Hcreated).
  pose proof Hcreated as (resp & links & action & rest & Hc' & Hl & Ha & Hh).
  rewrite Hc in Hc'. simplify_eq.
  task_steps. rewrite Hl. task_steps.
  rewrite (bind_index _ _ action) by (by rewrite Ha). task_steps.
  destruct (godo.WaitForActive client (godo.HREF action)) as [err|] eqn:Hw.
  { task_steps. eexists _, (Failure err).
    split; [by eapply steps_wait_fails | reflexivity]. }
  task_steps.
  destruct (godo.Droplets_Get client (godo.droplet_ID created))
    as [[d r] [err|]] eqn:Hg.
  { task_steps. eexists _, (Failure err).
    split; [by eapply steps_get_fails | reflexivity]. }
  destruct (Hget _ d r Hg) as (droplet & -> & [size Hsize] & [region Hregion]).
  task_steps.
  destruct (PublicIPv4 droplet) as [pubIP [err|]] eqn:Hpub.
  { task_steps. eexists _, (Failure err).
    split; [by eapply steps_public_fails | reflexivity]. }
  task_steps.
  destruct (PrivateIPv4 droplet) as [privIP [err|]] eqn:Hpriv.
  { task_steps. eexists _, (Failure err).
    split; [by eapply steps_private_fails | reflexivity]. }
  task_steps. rewrite Hsize, Hregion. task_steps.
  eexists _, (Success droplet size region pubIP privIP).
  split; [by eapply steps_succeed | reflexivity].
Qed.

(** Without a credential the task makes no call. *)
Lemma runDropletCreate_no_token NewFromToken env createReq :
  Getenv env "DO_TOKEN" = "" →
  runDropletCreate NewFromToken env createReq
  = ([], Some (dropletErrorMsg missingToken)).
Proof.
  intros Hno. unfold runDropletCreate, dropletCreateTask.
  by rewrite Hno.
Qed.

(** C2. When the variable DO_TOKEN is absent from the environment or empty,
    the task makes no call to the API (no create, wait or get) and returns
    at once the error message that asks for the variable to be set; handed
    that message, [Update] stores it as the final message and quits, which
    is the Failed phase, and [View] shows it. *)
Theorem missing_token_fails_without_calls NewFromToken
    (env : gmap string string) createReq m :
  env !! "DO_TOKEN" = None ∨ env !! "DO_TOKEN" = Some "" →
  runDropletCreate NewFromToken env createReq
  = ([], Some (dropletErrorMsg missingToken))
  ∧ contains (dropletErrorMsg missingToken)
      (Render placeholderStyle
         "set the 'DO_TOKEN' environment variable to a DigitalOcean API token")
  ∧ Update m (dropletMsg (dropletErrorMsg missingToken))
    = Some (set_finalMsg (dropletErrorMsg missingToken) m, tea_Quit)
  ∧ phase (set_finalMsg (dropletErrorMsg missingToken) m) Failed
  ∧ View (set_finalMsg (dropletErrorMsg missingToken) m)
    = dropletErrorMsg missingToken.
Proof.
  intros Henv.
  assert (Hno : Getenv env "DO_TOKEN" = "").
  { unfold Getenv. by destruct Henv as [-> | ->]. }
  split; [by apply runDropletCreate_no_token|].
  split.
  { pose proof (outcomeMsg_contains (Failure missingToken)) as Hparts.
    by apply Forall_cons_1 in Hparts as [Hpart _]. }
  split; [apply Update_dropletMsg|].
  split; [apply (outcome_phase m (Failure missingToken))|].
  apply View_final, dropletErrorMsg_nonempty.
Qed.

(** C8, as the code has it. Provided the answers of the API carry every
    part the task reads (a successful creation its droplet and a first
    action link, a successful get its droplet with size and region), a run
    of the task returns exactly one message: the summary with the droplet's
    name, monthly price, region, size, public and private address when
    every step succeeds, and the error message with the description of the
    first failure otherwise. Handed that message, [Update] stores it as the
    final message and quits: the phase is Succeeded or Failed accordingly,
    and [View] shows the message. *)
Theorem submission_task_returns_one_message NewFromToken
    (env : gmap string string) createReq :
  answersComplete (NewFromToken (Getenv env "DO_TOKEN")) createReq →
  ∃ calls o,
    steps (NewFromToken (Getenv env "DO_TOKEN")) (Getenv env "DO_TOKEN")
      createReq calls o
    ∧ runDropletCreate NewFromToken env createReq
      = (calls, Some (outcomeMsg o))
    ∧ Forall (contains (outcomeMsg o)) (outcomeParts o)
    ∧ ∀ m,
        Update m (dropletMsg (outcomeMsg o))
        = Some (set_finalMsg (outcomeMsg o) m, tea_Quit)
        ∧ phase (set_finalMsg (outcomeMsg o) m) (outcomePhase o)
        ∧ View (set_finalMsg (outcomeMsg o) m) = outcomeMsg o.
Proof.
  intros Hcomplete.
  destruct (runDropletCreate_steps NewFromToken env createReq Hcomplete)
    as (calls & o & Hsteps & Hrun).
  exists calls, o. split; [exact Hsteps|]. split; [exact Hrun|].
  split; [apply outcomeMsg_contains|].
  intros m. split; [apply Update_dropletMsg|].
  split; [apply outcome_phase|].
  apply View_final, outcomeMsg_nonempty.
Qed.

(** *** Keys while the task is running *)

Lemma isCancelKey_not_enter s :
  isCancelKey s = true → (s =? "enter")%string = false.
Proof.
  unfold isCancelKey. intros [H|H]%orb_true_iff;
    apply String.eqb_eq in H; by subst.
Qed.

Lemma isFocusKey_false_not_enter s :
  isFocusKey s = false → (s =? "enter")%string = false.
Proof.
  unfold isFocusKey. intros H.
  repeat (apply orb_false_iff in H as [H ?]). done.
Qed.

Lemma updateRest_dispatched m msg : dispatched (updateRest m msg).2 = 0%nat.
Proof.
  unfold updateRest, updateInputs.
  destruct (spinner_Update _ _) as [sp spinnerCmd]. cbn [snd fst].
  apply dispatched_Batch_zero. repeat constructor.
  apply dispatched_Batch_zero, Forall_fmap, Forall_true. done.
Qed.

Lemma updateRest_set_creating b m msg :
  updateRest (set_creating b m) msg
  = (set_creating b (updateRest m msg).1, (updateRest m msg).2).
Proof.
  unfold updateRest, updateInputs. cbn.
  by destruct (spinner_Update _ _).
Qed.

(** C1, as the code has it. [Update] never reads the [creating] flag: a
    message is handled while the task is running exactly as it is while
    editing, the flag staying set. A task is dispatched by each enter key
    pressed on the submit control, one per such key, and by no other
    message. *)
Theorem keys_handled_alike_while_submitting m msg :
  Update (set_creating true m) msg
  = (λ r, (set_creating true r.1, r.2)) <$> Update m msg
  ∧ ∀ m' c,
      Update m msg = Some (m', c) →
      dispatched c = if submits m msg then 1%nat else 0%nat.
Proof.
  rewrite !Update_cases. split.
  - destruct msg as [s|text|o].
    + destruct (isCancelKey s); [reflexivity|].
      destruct (isFocusKey s).
      * change (submits (set_creating true m) (KeyMsg s))
          with (submits m (KeyMsg s)).
        destruct (submits m (KeyMsg s)); [|reflexivity].
        change (inputs (set_creating true m)) with (inputs m).
        by destruct (setDropletCreate _).
      * by rewrite updateRest_set_creating.
    + reflexivity.
    + by rewrite updateRest_set_creating.
  - intros m' c Hstep. destruct msg as [s|text|o].
    + destruct (isCancelKey s) eqn:Hcancel.
      { simplify_eq. cbn. by rewrite isCancelKey_not_enter. }
      destruct (isFocusKey s) eqn:Hfocus.
      * destruct (submits m (KeyMsg s)).
        -- destruct (setDropletCreate _); [|done].
           unfold submitted in Hstep. by simplify_eq/=.
        -- simplify_eq.
           replace c with (moveFocus ((s =? "up")%string
                                       || (s =? "shift+tab")%string) m).2
             by (by rewrite Hstep).
           apply moveFocus_dispatched.
      * simplify_eq. cbn. rewrite isFocusKey_false_not_enter by done.
        cbn [andb].
        replace c with (updateRest m (KeyMsg s)).2 by (by rewrite Hstep).
        apply updateRest_dispatched.
    + by simplify_eq.
    + simplify_eq.
      replace c with (updateRest m (OtherMsg o)).2 by (by rewrite Hstep).
      apply updateRest_dispatched.
Qed.

(** *** Further properties of the event loop *)

(** X1. Whatever the libraries do, every reachable model has its four inputs
    and a focus index between 0 and 4. *)
Theorem reachable_shape m :
  reachable m → length (inputs m) = 4%nat ∧ 0 ≤ focusIndex m ≤ 4.
Proof. intros Hm. exact (reachable_wf m Hm). Qed.

(** X2. [Update] does not panic on a reachable model: the only indexing it
    does, in [setDropletCreate], finds its four inputs; and the model it
    returns is reachable. *)
Theorem Update_never_panics m msg :
  reachable m → ∃ m' c, Update m msg = Some (m', c) ∧ reachable m'.
Proof.
  intros Hm.
  assert (Hsome : is_Some (Update m msg)).
  { rewrite Update_cases. destruct msg as [s|text|o]; try done.
    destruct (isCancelKey s); [done|]. destruct (isFocusKey s); [|done].
    destruct (submits m (KeyMsg s)); [|done].
    apply fmap_is_Some, setDropletCreate_total, (reachable_wf m Hm). }
  destruct Hsome as [[m' c] Hstep]. exists m', c.
  split; [exact Hstep | by eapply reachable_Update].
Qed.

(** X3. A key outside the two cases of the switch (a character, backspace,
    an arrow to the side) goes to the inputs and the spinner only: the focus
    index, the phase fields and the stored request stay as they are, the
    number of inputs too, and no task is dispatched. *)
Theorem other_keys_leave_the_form s m :
  isCancelKey s = false →
  isFocusKey s = false →
  ∃ m' c,
    Update m (KeyMsg s) = Some (m', c)
    ∧ focusIndex m' = focusIndex m
    ∧ length (inputs m') = length (inputs m)
    ∧ creating m' = creating m
    ∧ finalMsg m' = finalMsg m
    ∧ droplet m' = droplet m
    ∧ dispatched c = 0%nat.
Proof.
  intros Hcancel Hfocus. rewrite Update_cases, Hcancel, Hfocus.
  exists (updateRest m (KeyMsg s)).1, (updateRest m (KeyMsg s)).2.
  split; [by destruct (updateRest m (KeyMsg s))|].
  pose proof (updateRest_dispatched m (KeyMsg s)) as Hd.
  unfold updateRest, updateInputs in *.
  destruct (spinner_Update _ _) as [sp spinnerCmd]. cbn in *.
  rewrite !length_fmap. done.
Qed.

(** Once a final message is stored [View] shows it and nothing else,
    whether or not the task is still marked as running. *)
Theorem View_shows_final_message m :
  finalMsg m ≠ "" → View m = finalMsg m.
Proof.
  intros Hne%String.eqb_neq. unfold View. by rewrite Hne.
Qed.

End Properties.

(** ** The code beyond the claims *)

Section Coverage.
Context {Op : Opaque} {Libs : Libraries}.

(** *** The focus keys on a form of any length *)

Lemma cycled_inRange back m : 0 ≤ cycled back m ≤ len m.
Proof.
  unfold cycled. assert (0 ≤ len m) by (unfold len; lia).
  destruct back; lazy zeta;
    repeat match goal with
           | |- context [?a >? ?b] => destruct (Z.gtb_spec a b)
           | |- context [?a <? ?b] => destruct (Z.ltb_spec a b)
           end; lia.
Qed.

Lemma cycled_mod_len back m :
  inRange m →
  len m < maxInt →
  cycled back m
  = if back then (focusIndex m - 1 + (len m + 1)) mod (len m + 1)
    else (focusIndex m + 1) mod (len m + 1).
Proof.
  unfold inRange, cycled, maxInt. intros Hfi Hlen.
  destruct back; lazy zeta.
  - rewrite wrap_small by (unfold minInt, maxInt; lia).
    destruct (Z.gtb_spec (focusIndex m - 1) (len m)); [lia|].
    destruct (Z.ltb_spec (focusIndex m - 1) 0).
    + replace (focusIndex m - 1 + (len m + 1)) with (len m) by lia.
      symmetry. apply Z.mod_small. lia.
    + replace (focusIndex m - 1 + (len m + 1))
        with (focusIndex m - 1 + 1 * (len m + 1)) by lia.
      rewrite Z.mod_add by lia. symmetry. apply Z.mod_small. lia.
  - rewrite wrap_small by (unfold minInt, maxInt; lia).
    destruct (Z.gtb_spec (focusIndex m + 1) (len m)).
    + replace (focusIndex m + 1) with (len m + 1) by lia.
      symmetry. apply Z.mod_same. lia.
    + destruct (Z.ltb_spec (focusIndex m + 1) 0); [lia|].
      symmetry. apply Z.mod_small. lia.
Qed.

Lemma moveFocus_len back m : len (moveFocus back m).1 = len m.
Proof. unfold len. by rewrite moveFocus_inputs, length_fmap, length_imap. Qed.

Lemma moveFocus_lookup back m i t' :
  inputs (moveFocus back m).1 !! i = Some t' →
  ∃ t, inputs m !! i = Some t ∧ t' = (refocus (cycled back m) i t).1.
Proof.
  rewrite moveFocus_inputs, list_lookup_fmap, list_lookup_imap.
  destruct (inputs m !! i) as [t|]; [|done].
  intros [= <-]. by exists t.
Qed.

Lemma refocus_styles fi i t :
  textinput.PromptStyle (refocus fi i t).1
  = (if Z.of_nat i =? fi then focusedStyle else noStyle)
  ∧ textinput.TextStyle (refocus fi i t).1
    = (if Z.of_nat i =? fi then focusedStyle else noStyle).
Proof. unfold refocus. by destruct (Z.of_nat i =? fi). Qed.

Lemma refocus_fieldData fi i t : fieldData (refocus fi i t).1 = fieldData t.
Proof. unfold refocus. by destruct (Z.of_nat i =? fi). Qed.

(** What the loop writes does not depend on what it wrote before. *)
Lemma refocus_refocus a b i t :
  (refocus a i (refocus b i t).1).1 = (refocus a i t).1.
Proof.
  unfold refocus.
  destruct (Z.of_nat i =? a), (Z.of_nat i =? b); reflexivity.
Qed.

(** The inputs after the loop, looked up by index. *)
Lemma refocused_lookup fi (l : list textinput.Model) i :
  (imap (refocus fi) l).*1 !! i = (λ t, (refocus fi i t).1) <$> l !! i.
Proof.
  rewrite list_lookup_fmap, list_lookup_imap. by destruct (l !! i).
Qed.

Lemma refocused_twice a b (l : list textinput.Model) :
  (imap (refocus a) (imap (refocus b) l).*1).*1 = (imap (refocus a) l).*1.
Proof.
  apply list_eq. intros i. rewrite !refocused_lookup.
  destruct (l !! i) as [t|]; [|done]. cbn. by rewrite refocus_refocus.
Qed.

Lemma moveFocus_settled back m : focusSettled (moveFocus back m).1.
Proof.
  unfold focusSettled. rewrite moveFocus_focusIndex, moveFocus_inputs.
  by rewrite refocused_twice.
Qed.

Lemma moveFocus_inRange back m : inRange (moveFocus back m).1.
Proof.
  unfold inRange. rewrite moveFocus_focusIndex, moveFocus_len.
  apply cycled_inRange.
Qed.

(** X5. Whatever the model (any index, any number of inputs, inputs in any
    state) a focus key leaves the number of inputs as it is, brings the
    index onto an input or onto the submit control, gives the focus and the
    focused style to the input at the index and to no other, and so leaves
    exactly one of the inputs and the submit control focused. *)
Theorem focus_key_settles_any_model (k : FocusKey) m :
  ∃ m' c,
    Update m (KeyMsg (keyName k)) = Some (m', c)
    ∧ length (inputs m') = length (inputs m)
    ∧ 0 ≤ focusIndex m' ≤ len m'
    ∧ (∀ i t,
        inputs m' !! i = Some t →
        textinput.focus t = (Z.of_nat i =? focusIndex m')
        ∧ textinput.PromptStyle t
          = (if Z.of_nat i =? focusIndex m' then focusedStyle else noStyle)
        ∧ textinput.TextStyle t
          = (if Z.of_nat i =? focusIndex m' then focusedStyle else noStyle))
    ∧ focusedCount m' = 1%nat.
Proof.
  rewrite Update_focus_key. set (back := negb (advances k)).
  exists (moveFocus back m).1, (moveFocus back m).2.
  split; [by destruct (moveFocus back m)|].
  pose proof (moveFocus_inRange back m) as Hr. unfold inRange in Hr.
  split; [by rewrite moveFocus_inputs, length_fmap, length_imap|].
  split; [exact Hr|]. split.
  - intros i t' (t & _ & ->)%moveFocus_lookup.
    rewrite moveFocus_focusIndex, refocus_focus.
    split; [reflexivity|]. apply refocus_styles.
  - unfold focusedCount, submitFocused.
    rewrite moveFocus_inputs at 1. rewrite refocus_count0.
    rewrite moveFocus_focusIndex, moveFocus_len in *. unfold len in *.
    case_decide; destruct (Z.eqb_spec (cycled back m)
                             (Z.of_nat (length (inputs m)))); lia.
Qed.

(** A run of focus keys on a form of any length. *)
Lemma run_focus_keys_len (keys : list FocusKey) m :
  inRange m →
  len m < maxInt →
  ∃ m' cs,
    run m (KeyMsg ∘ keyName <$> keys) = Some (m', cs)
    ∧ len m' = len m
    ∧ inRange m'
    ∧ focusIndex m' = (focusIndex m + netAdvance keys) mod (len m + 1).
Proof.
  revert m. induction keys as [|k keys IH]; intros m Hr Hlen.
  - exists m, []. split; [reflexivity|]. split; [reflexivity|].
    split; [exact Hr|]. cbn. rewrite Z.add_0_r.
    symmetry. apply Z.mod_small. unfold inRange in Hr. lia.
  - cbn [fmap list_fmap run compose]. rewrite Update_focus_key.
    pose proof (moveFocus_inRange (negb (advances k)) m) as Hr1.
    pose proof (moveFocus_len (negb (advances k)) m) as Hlen1.
    pose proof (cycled_mod_len (negb (advances k)) m Hr Hlen) as Hfi1.
    rewrite <- moveFocus_focusIndex in Hfi1.
    destruct (moveFocus (negb (advances k)) m) as [m1 c1]. cbn [fst] in *.
    destruct (IH m1 Hr1) as (m' & cs & Hrun & Hlen' & Hr' & Hfi'); [lia|].
    exists m', (c1 :: cs).
    change (list_fmap FocusKey Msg (KeyMsg ∘ keyName) keys)
      with (KeyMsg ∘ keyName <$> keys).
    cbn [mbind option_bind]. rewrite Hrun. cbn [mbind option_bind].
    split; [reflexivity|]. split; [congruence|]. split; [exact Hr'|].
    rewrite Hfi', Hlen1, Hfi1. cbn [netAdvance foldr].
    fold (netAdvance keys). destruct (advances k); cbn [negb].
    + rewrite Zplus_mod_idemp_l. f_equal. lia.
    + rewrite Zplus_mod_idemp_l.
      replace (focusIndex m - 1 + (len m + 1) + netAdvance keys)
        with (focusIndex m + (-1 + netAdvance keys) + 1 * (len m + 1)) by lia.
      apply Z.mod_add. unfold len. lia.
Qed.

(** X6. On a form of any length whose index is in range, the index after any
    sequence of focus keys is the index before plus the number of
    advancing keys less the number of retreating keys, modulo the number of
    inputs plus one; the number of inputs does not change. *)
Theorem focus_index_after_keys (keys : list FocusKey) m :
  0 ≤ focusIndex m ≤ len m →
  len m < maxInt →
  ∃ m' cs,
    run m (KeyMsg ∘ keyName <$> keys) = Some (m', cs)
    ∧ len m' = len m
    ∧ focusIndex m' = (focusIndex m + netAdvance keys) mod (len m + 1).
Proof.
  intros Hr Hlen.
  destruct (run_focus_keys_len keys m Hr Hlen)
    as (m' & cs & Hrun & Hlen' & _ & Hfi).
  by exists m', cs.
Qed.





(** *** Focus keys and the request *)

Lemma moveFocus_fieldData back m :
  fieldData <$> inputs (moveFocus back m).1 = fieldData <$> inputs m.
Proof.
  apply list_eq. intros i.
  rewrite moveFocus_inputs, !list_lookup_fmap, list_lookup_imap.
  destruct (inputs m !! i) as [t|]; [|done]. cbn.
  by rewrite refocus_fieldData.
Qed.

(** The request is read off the values and the placeholders alone. *)
Lemma setDropletCreate_ext (l l' : list textinput.Model) :
  fieldData <$> l = fieldData <$> l' →
  setDropletCreate l = setDropletCreate l'.
Proof.
  intros Heq.
  destruct l as [|a [|b [|c [|d l]]]], l' as [|a' [|b' [|c' [|d' l']]]];
    try discriminate; try reflexivity.
  rewrite !setDropletCreate_resolved.
  unfold resolved_value, textinput.Value, fieldData in *.
  injection Heq as Ha Hb Hc Hd _. simplify_eq.
  repeat match goal with H : textinput.value _ = _ |- _ => rewrite H end.
  repeat match goal with H : textinput.Placeholder _ = _ |- _ => rewrite H end.
  reflexivity.
Qed.

Lemma run_focus_keys_fields (keys : list FocusKey) m :
  ∃ m' cs,
    run m (KeyMsg ∘ keyName <$> keys) = Some (m', cs)
    ∧ fieldData <$> inputs m' = fieldData <$> inputs m
    ∧ spinner m' = spinner m
    ∧ creating m' = creating m
    ∧ finalMsg m' = finalMsg m
    ∧ droplet m' = droplet m
    ∧ Forall (λ c, dispatched c = 0%nat) cs.
Proof.
  revert m. induction keys as [|k keys IH]; intros m.
  - exists m, []. repeat split. constructor.
  - cbn [fmap list_fmap run compose]. rewrite Update_focus_key.
    pose proof (moveFocus_fieldData (negb (advances k)) m) as Hf1.
    pose proof (moveFocus_dispatched (negb (advances k)) m) as Hd1.
    assert (Hrest : spinner (moveFocus (negb (advances k)) m).1 = spinner m
                    ∧ creating (moveFocus (negb (advances k)) m).1 = creating m
                    ∧ finalMsg (moveFocus (negb (advances k)) m).1 = finalMsg m
                    ∧ droplet (moveFocus (negb (advances k)) m).1 = droplet m)
      by done.
    destruct (moveFocus (negb (advances k)) m) as [m1 c1]. cbn [fst snd] in *.
    destruct (IH m1) as (m' & cs & Hrun & Hf & Hs & Hc & Hm & Hd & Hds).
    exists m', (c1 :: cs).
    change (list_fmap FocusKey Msg (KeyMsg ∘ keyName) keys)
      with (KeyMsg ∘ keyName <$> keys).
    cbn [mbind option_bind]. rewrite Hrun. cbn [mbind option_bind].
    destruct Hrest as (? & ? & ? & ?).
    split; [reflexivity|]. split; [congruence|]. split; [congruence|].
    split; [congruence|]. split; [congruence|]. split; [congruence|].
    by constructor.
Qed.

(** X8. Focus keys never write what the user entered: after any sequence of
    them, from any model, every input has the prompt, placeholder, value,
    character limit, placeholder and cursor style and cursor mode it had,
    so the request [setDropletCreate] would build is the same; the phase
    fields and the stored request are untouched and no task is
    dispatched. *)
Theorem focus_keys_keep_the_fields (keys : list FocusKey) m :
  ∃ m' cs,
    run m (KeyMsg ∘ keyName <$> keys) = Some (m', cs)
    ∧ fieldData <$> inputs m' = fieldData <$> inputs m
    ∧ setDropletCreate (inputs m') = setDropletCreate (inputs m)
    ∧ creating m' = creating m
    ∧ finalMsg m' = finalMsg m
    ∧ droplet m' = droplet m
    ∧ Forall (λ c, dispatched c = 0%nat) cs.
Proof.
  destruct (run_focus_keys_fields keys m)
    as (m' & cs & Hrun & Hf & _ & Hc & Hm & Hd & Hds).
  exists m', cs. split; [exact Hrun|]. split; [exact Hf|].
  split; [by apply setDropletCreate_ext|]. done.
Qed.

(** X9. However the user moves through the untouched form, once the focus
    is on the submit control (the advancing keys less the retreating ones
    are 4 modulo 5) enter submits the request made of the placeholders, and
    that is the one task dispatched. *)
Theorem untouched_form_submits_defaults (keys : list FocusKey) :
  netAdvance keys mod 5 = 4 →
  ∃ m cs,
    run initialModel (KeyMsg ∘ keyName <$> keys) = Some (m, cs)
    ∧ Forall (λ c, dispatched c = 0%nat) cs
    ∧ Update m (KeyMsg "enter") = Some (submitted m placeholderRequest)
    ∧ dispatched (submitted m placeholderRequest).2 = 1%nat.
Proof.
  intros Hnet.
  destruct (run_focus_keys_fields keys initialModel)
    as (m & cs & Hrun & Hf & _ & _ & _ & _ & Hds).
  destruct (run_focus_keys_len keys initialModel)
    as (m2 & cs2 & Hrun2 & Hlen & _ & Hfi); [done..|].
  rewrite Hrun in Hrun2. simplify_eq.
  exists m2, cs2. split; [exact Hrun|]. split; [exact Hds|].
  split; [|reflexivity].
  rewrite Update_enter_submit.
  - by rewrite (setDropletCreate_ext _ _ Hf).
  - rewrite Hfi, Hlen. exact Hnet.
Qed.

(** *** The request and its bounds *)

(** X10. [setDropletCreate] panics, on an index out of range, exactly when
    it is given fewer than four inputs, and it never reads past the
    fourth. *)
Theorem setDropletCreate_needs_four (l : list textinput.Model) :
  (setDropletCreate l = None ↔ (length l < 4)%nat)
  ∧ setDropletCreate (take 4 l) = setDropletCreate l.
Proof.
  destruct l as [|a [|b [|c [|d l]]]]; cbn [length take];
    try (split; [split; [intros _; lia | reflexivity] | reflexivity]).
  rewrite !setDropletCreate_resolved. split; [|reflexivity].
  split; [discriminate | lia].
Qed.



Lemma digit_isDigit c d : strconv.digit c = Some d → isDigit c = true.
Proof. unfold strconv.digit, isDigit. by destruct (_ && _). Qed.

Lemma digits_allDigits s acc n :
  strconv.digits acc s = Some n → allDigits s = true.
Proof.
  revert acc. induction s as [|c s IH]; intros acc; [done|].
  cbn [strconv.digits allDigits].
  destruct (strconv.digit c) as [d|] eqn:Hd; [|done].
  cbn [mbind option_bind]. intros Hn.
  by rewrite (digit_isDigit c d Hd), (IH _ Hn).
Qed.

Lemma Atoi_isNumeral s n : strconv.Atoi s = Some n → isNumeral s = true.
Proof.
  destruct s as [|c rest]; [done|]. unfold strconv.Atoi, isNumeral.
  destruct (Ascii.eqb c "-" || Ascii.eqb c "+").
  - destruct rest as [|c' rest']; [done|].
    destruct (strconv.digits 0 (String c' rest')) as [v|] eqn:Hv; [|done].
    intros _. by rewrite (digits_allDigits _ _ _ Hv).
  - destruct (strconv.digits 0 (String c rest)) as [v|] eqn:Hv; [|done].
    intros _. by rewrite (digits_allDigits _ _ _ Hv).
Qed.

(** X12. An image string that is not a decimal numeral (an optional sign
    followed by digits only, at least one) is never taken for a number:
    the request carries it unchanged as the slug. *)
Theorem image_not_numeral_is_slug (l : list textinput.Model) i3 d :
  l !! 3%nat = Some i3 →
  setDropletCreate l = Some d →
  isNumeral (resolved_value i3) = false →
  godo.Image d = {| godo.ID := 0; godo.Slug := resolved_value i3 |}.
Proof.
  intros Hi3 Hd Hnum.
  destruct l as [|a [|b [|c [|i3' l]]]]; try discriminate.
  rewrite setDropletCreate_resolved in Hd. cbn in Hi3. simplify_eq.
  cbn [godo.Image]. unfold imageReference.
  destruct (strconv.Atoi (resolved_value i3)) as [n|] eqn:Hn; [|done].
  apply Atoi_isNumeral in Hn. congruence.
Qed.

(** *** The task against any API *)

Hint Rewrite @bind_call @bind_check_nil @bind_check_err @bind_deref
  @bind_deref_nil : task.

Lemma runDropletCreate_paths NewFromToken env createReq :
  ∃ calls r,
    runDropletCreate NewFromToken env createReq = (calls, r)
    ∧ calls `prefix_of`
        plannedCalls (NewFromToken (Getenv env "DO_TOKEN"))
          (Getenv env "DO_TOKEN") createReq
    ∧ (calls = [] ↔ Getenv env "DO_TOKEN" = "")
    ∧ match r with
      | Some msg => ∃ o, msg = outcomeMsg o
      | None =>
          Getenv env "DO_TOKEN" ≠ ""
          ∧ (godo.Droplets_Create (NewFromToken (Getenv env "DO_TOKEN"))
               createReq).2 = None
      end.
Proof.
  unfold runDropletCreate, dropletCreateTask, plannedCalls.
  set (token := Getenv env "DO_TOKEN") in *.
  destruct (String.eqb_spec token "") as [Hno|Htoken].
  { exists [], (Some (outcomeMsg (Failure missingToken))).
    split; [reflexivity|]. split; [apply prefix_nil|].
    split; [done|]. by eexists. }
  set (client := NewFromToken token) in *.
  unfold runTask. task_steps.
  destruct (godo.Droplets_Create client createReq) as [[d r] [err|]].
  { task_steps. task_path (Failure err). }
  task_steps. destruct r as [resp|]; task_steps; [|task_path (Failure missingToken)].
  unfold firstActionLink. cbn [mbind option_bind].
  destruct (godo.resp_Links resp) as [links|]; task_steps;
    [|task_path (Failure missingToken)].
  unfold index. cbn [mbind option_bind].
  destruct (godo.Actions links) as [|action rest]; cbn [lookup list_lookup head];
    task_steps; [task_path (Failure missingToken)|].
  cbn [fmap option_fmap option_map default].
  destruct (godo.WaitForActive client (godo.HREF action)) as [err|];
    task_steps; [task_path (Failure err)|].
  destruct d as [created|]; task_steps; [|task_path (Failure missingToken)].
  cbn [from_option].
  destruct (godo.Droplets_Get client (godo.droplet_ID created))
    as [[d r] [err|]]; task_steps; [task_path (Failure err)|].
  destruct d as [droplet|]; task_steps; [|task_path (Failure missingToken)].
  destruct (PublicIPv4 droplet) as [pubIP [err|]]; task_steps;
    [task_path (Failure err)|].
  destruct (PrivateIPv4 droplet) as [privIP [err|]]; task_steps;
    [task_path (Failure err)|].
  destruct (godo.droplet_Size droplet) as [size|]; task_steps;
    [|task_path (Failure missingToken)].
  destruct (godo.droplet_Region droplet) as [region|]; task_steps;
    [|task_path (Failure missingToken)].
  task_path (Success droplet size region pubIP privIP).
Qed.

(** X13. Whatever the API answers, the calls of one run are the first
    zero to three of: the creation, the wait on the first action link of
    its response, the get of the droplet it created; so a run creates at
    most one droplet and never waits or gets before it has created. It
    makes no call at all exactly when the credential is empty. *)
Theorem task_calls_in_order NewFromToken (env : gmap string string)
    createReq :
  (runDropletCreate NewFromToken env createReq).1
    `prefix_of` plannedCalls (NewFromToken (Getenv env "DO_TOKEN"))
                  (Getenv env "DO_TOKEN") createReq
  ∧ ((runDropletCreate NewFromToken env createReq).1 = []
     ↔ Getenv env "DO_TOKEN" = "").
Proof.
  destruct (runDropletCreate_paths NewFromToken env createReq)
    as (calls & r & -> & Hprefix & Hnil & _).
  by split.
Qed.

(** X14. Whatever the API answers, a message the task returns is the error
    text of some error or the summary of some droplet, and never empty; so
    once [Update] has stored it and quit, [View] shows exactly that
    message, whatever the model was. *)
Theorem task_message_is_shown NewFromToken (env : gmap string string)
    createReq msg m :
  (runDropletCreate NewFromToken env createReq).2 = Some msg →
  (∃ o, msg = outcomeMsg o)
  ∧ msg ≠ ""
  ∧ ∃ m', Update m (dropletMsg msg) = Some (m', tea_Quit) ∧ View m' = msg.
Proof.
  destruct (runDropletCreate_paths NewFromToken env createReq)
    as (calls & r & -> & _ & _ & Hr).
  cbn [snd]. intros ->. destruct Hr as [o ->].
  split; [by exists o|]. split; [apply outcomeMsg_nonempty|].
  eexists. split; [apply Update_dropletMsg|].
  apply View_final, outcomeMsg_nonempty.
Qed.

Lemma runDropletCreate_no_link NewFromToken env createReq created resp :
  Getenv env "DO_TOKEN" ≠ "" →
  godo.Droplets_Create (NewFromToken (Getenv env "DO_TOKEN")) createReq
  = (created, resp, None) →
  firstActionLink resp = None →
  runDropletCreate NewFromToken env createReq
  = ([CreateCall (Getenv env "DO_TOKEN") createReq], None).
Proof.
  intros Htoken%String.eqb_neq Hc Hlink.
  unfold runDropletCreate, dropletCreateTask. rewrite Htoken.
  unfold runTask. task_steps. rewrite Hc. task_steps.
  destruct resp as [r|]; task_steps; [|reflexivity].
  unfold firstActionLink in Hlink. cbn [mbind option_bind] in Hlink.
  destruct (godo.resp_Links r) as [links|]; task_steps; [|reflexivity].
  cbn [mbind option_bind] in Hlink. unfold index.
  destruct (godo.Actions links) as [|action rest]; [|done].
  cbn [lookup list_lookup]. by task_steps.
Qed.

(** X15. The task returns no message only when it panics after a creation
    that succeeded: the credential was there, the creation was the first
    call and came back without an error. One such case: whenever the
    response to a successful creation has no action link (no response, no
    links, or an empty list of actions), the run stops after that one call
    with no message, whatever else the API would answer. *)
Theorem task_silent_only_after_creation NewFromToken
    (env : gmap string string) createReq :
  ((runDropletCreate NewFromToken env createReq).2 = None →
   Getenv env "DO_TOKEN" ≠ ""
   ∧ (godo.Droplets_Create (NewFromToken (Getenv env "DO_TOKEN"))
        createReq).2 = None
   ∧ head (runDropletCreate NewFromToken env createReq).1
     = Some (CreateCall (Getenv env "DO_TOKEN") createReq))
  ∧ (Getenv env "DO_TOKEN" ≠ "" →
     (godo.Droplets_Create (NewFromToken (Getenv env "DO_TOKEN"))
        createReq).2 = None →
     firstActionLink
       (godo.Droplets_Create (NewFromToken (Getenv env "DO_TOKEN"))
          createReq).1.2 = None →
     runDropletCreate NewFromToken env createReq
     = ([CreateCall (Getenv env "DO_TOKEN") createReq], None)).
Proof.
  split.
  - destruct (runDropletCreate_paths NewFromToken env createReq)
      as (calls & r & Hrun & Hprefix & Hnil & Hr).
    rewrite Hrun. cbn [fst snd]. intros ->. destruct Hr as [Htoken Herr].
    split; [exact Htoken|]. split; [exact Herr|].
    unfold plannedCalls in Hprefix.
    destruct (godo.Droplets_Create _ _) as [[d r] e].
    destruct calls as [|c calls]; [by destruct Htoken; apply Hnil|].
    destruct Hprefix as [k Hk]. by injection Hk as <- _.
  - intros Htoken Herr Hlink.
    destruct (godo.Droplets_Create _ _) as [[d r] e] eqn:Hc.
    cbn [fst snd] in *. subst e.
    by eapply runDropletCreate_no_link.
Qed.

(** *** Steps that do not submit *)

Lemma updateRest_frame m msg :
  focusIndex (updateRest m msg).1 = focusIndex m
  ∧ creating (updateRest m msg).1 = creating m
  ∧ finalMsg (updateRest m msg).1 = finalMsg m
  ∧ droplet (updateRest m msg).1 = droplet m
  ∧ inputs (updateRest m msg).1 = ((λ t, textinput_Update t msg) <$> inputs m).*1.
Proof.
  unfold updateRest, updateInputs.
  by destruct (spinner_Update _ _).
Qed.

Lemma Update_without_submit m msg m' c :
  submits m msg = false →
  Update m msg = Some (m', c) →
  dispatched c = 0%nat ∧ creating m' = creating m ∧ droplet m' = droplet m.
Proof.
  intros Hsub Hstep. rewrite Update_cases in Hstep.
  assert (Hrest : ∀ r, r = (m', c) → r = updateRest m msg →
                       dispatched c = 0%nat ∧ creating m' = creating m
                       ∧ droplet m' = droplet m).
  { intros r -> Hr.
    pose proof (updateRest_dispatched m msg) as Hd.
    pose proof (updateRest_frame m msg) as (_ & Hc & _ & Hdr & _).
    rewrite <- Hr in *. done. }
  destruct msg as [s|text|o].
  - destruct (isCancelKey s); [by simplify_eq|].
    destruct (isFocusKey s); [|simplify_eq; by eapply Hrest].
    rewrite Hsub in Hstep. simplify_eq.
    pose proof (moveFocus_dispatched
                  ((s =? "up")%string || (s =? "shift+tab")%string) m) as Hd.
    rewrite Hstep in Hd.
    replace m' with (moveFocus ((s =? "up")%string
                                 || (s =? "shift+tab")%string) m).1
      by (by rewrite Hstep).
    done.
  - by simplify_eq.
  - simplify_eq. by eapply Hrest.
Qed.

(** X16. No enter key, no task: over any run of messages none of which is
    the enter key (other keys, ticks, even droplet messages), from any
    model, no task is dispatched, the [creating] flag stays as it was and
    no request is stored. *)
Theorem no_enter_no_task (msgs : list Msg) m m' cs :
  Forall (λ msg, msg ≠ KeyMsg "enter") msgs →
  run m msgs = Some (m', cs) →
  Forall (λ c, dispatched c = 0%nat) cs
  ∧ creating m' = creating m
  ∧ droplet m' = droplet m.
Proof.
  intros Hmsgs. revert m cs.
  induction Hmsgs as [|msg msgs Hmsg _ IH]; intros m cs Hrun.
  - cbn in Hrun. simplify_eq. by split; [constructor|].
  - cbn [run] in Hrun.
    destruct (Update m msg) as [[m1 c1]|] eqn:Hstep; [|done].
    cbn [mbind option_bind] in Hrun.
    destruct (run m1 msgs) as [[m2 cs2]|] eqn:Hrest; [|done].
    cbn [mbind option_bind] in Hrun. simplify_eq.
    assert (Hsub : submits m msg = false).
    { destruct msg as [s| |]; try reflexivity. cbn.
      destruct (String.eqb_spec s "enter") as [->|]; [done|reflexivity]. }
    destruct (Update_without_submit m msg m1 c1 Hsub Hstep) as (Hd & Hc & Hdr).
    destruct (IH m1 cs2 Hrest) as (Hds & Hc' & Hdr').
    split; [by constructor|]. split; congruence.
Qed.

(** X17. In every reachable model the [creating] flag is set exactly when a
    request is stored; and from any model, once the flag is set and a
    request stored, every later step keeps both: nothing brings the form
    back to editing. *)
Theorem creating_iff_request_stored m :
  reachable m →
  (creating m = true ↔ is_Some (droplet m))
  ∧ ∀ msg m' c,
      Update m msg = Some (m', c) →
      creating m = true →
      creating m' = true ∧ is_Some (droplet m').
Proof.
  intros Hm.
  assert (Hinv : creating m = true ↔ is_Some (droplet m)).
  { induction Hm as [|m msg m' c _ IH Hstep].
    - cbn. split; [done | by intros [? ?]].
    - destruct (submits m msg) eqn:Hsub.
      + rewrite Update_cases in Hstep. destruct msg as [s| |]; try done.
        destruct (isCancelKey s) eqn:Hcancel.
        { cbn in Hsub. by rewrite isCancelKey_not_enter in Hsub. }
        destruct (isFocusKey s) eqn:Hfocus.
        * rewrite Hsub in Hstep.
          destruct (setDropletCreate _); [|done].
          unfold submitted in Hstep. simplify_eq/=.
          split; [by eexists | done].
        * cbn in Hsub. apply andb_true_iff in Hsub as [Henter _].
          by rewrite (isFocusKey_false_not_enter s Hfocus) in Henter.
      + destruct (Update_without_submit m msg m' c Hsub Hstep)
          as (_ & -> & ->). exact IH. }
  split; [exact Hinv|].
  intros msg m' c Hstep Hc.
  destruct (submits m msg) eqn:Hsub.
  - rewrite Update_cases in Hstep. destruct msg as [s| |]; try done.
    destruct (isCancelKey s); [simplify_eq; by split; [|apply Hinv]|].
    destruct (isFocusKey s).
    + rewrite Hsub in Hstep. destruct (setDropletCreate _); [|done].
      unfold submitted in Hstep. simplify_eq/=. by split; [|eexists].
    + simplify_eq.
      pose proof (updateRest_frame m (KeyMsg s)) as (_ & Hc' & _ & Hd' & _).
      rewrite Hstep in *. cbn [fst] in *. rewrite Hc', Hd'.
      by split; [|apply Hinv].
  - destruct (Update_without_submit m msg m' c Hsub Hstep) as (_ & -> & ->).
    by split; [|apply Hinv].
Qed.

(** X18. Provided the library's input leaves its value alone when it does
    not have the focus, typing reaches the focused input only: after a
    focus key, a key outside the two cases of the switch keeps the index
    and the value of every input other than the one at the index; with the
    index on the submit control, no value changes at all. *)
Theorem typing_reaches_the_focused_input_only (k : FocusKey) s m :
  (∀ t msg, textinput.focus t = false →
            textinput.Value (textinput_Update t msg).1 = textinput.Value t) →
  isCancelKey s = false →
  isFocusKey s = false →
  ∃ m1 c1 m2 c2,
    Update m (KeyMsg (keyName k)) = Some (m1, c1)
    ∧ Update m1 (KeyMsg s) = Some (m2, c2)
    ∧ focusIndex m2 = focusIndex m1
    ∧ (∀ i t, inputs m1 !! i = Some t → Z.of_nat i ≠ focusIndex m1 →
              ∃ t', inputs m2 !! i = Some t'
                    ∧ textinput.Value t' = textinput.Value t)
    ∧ (focusIndex m1 = len m1 →
       textinput.Value <$> inputs m2 = textinput.Value <$> inputs m1).
Proof.
  intros Hlib Hcancel Hfocus.
  rewrite Update_focus_key. generalize (negb (advances k)). intros back.
  exists (moveFocus back m).1, (moveFocus back m).2.
  exists (updateRest (moveFocus back m).1 (KeyMsg s)).1,
    (updateRest (moveFocus back m).1 (KeyMsg s)).2.
  split; [by destruct (moveFocus back m)|].
  split.
  { rewrite Update_cases, Hcancel, Hfocus.
    by destruct (updateRest (moveFocus back m).1 (KeyMsg s)). }
  destruct (updateRest_frame (moveFocus back m).1 (KeyMsg s))
    as (Hfi & _ & _ & _ & Hin).
  split; [exact Hfi|].
  assert (Hkeep : ∀ i t, inputs (moveFocus back m).1 !! i = Some t →
                         Z.of_nat i ≠ focusIndex (moveFocus back m).1 →
                         textinput.Value (textinput_Update t (KeyMsg s)).1
                         = textinput.Value t).
  { intros i t' Hi Hne. apply Hlib.
    apply moveFocus_lookup in Hi as (t & _ & ->).
    rewrite refocus_focus. apply Z.eqb_neq.
    by rewrite moveFocus_focusIndex in Hne. }
  split.
  - intros i t Hi Hne. rewrite Hin, !list_lookup_fmap, Hi. cbn.
    eexists. split; [reflexivity|]. by eapply Hkeep.
  - intros Hsubmit. rewrite Hin. apply list_eq. intros i.
    rewrite !list_lookup_fmap.
    destruct (inputs (moveFocus back m).1 !! i) as [t|] eqn:Hi; [|done].
    cbn. f_equal. eapply Hkeep; [exact Hi|].
    apply lookup_lt_Some in Hi. rewrite Hsubmit. unfold len. lia.
Qed.

(** *** The editing view *)

Lemma String_app_nil_r (s : string) : s +:+ "" = s.
Proof.
  induction s as [|c s IH]; [reflexivity|].
  change (String c (s +:+ "") = String c s). by rewrite IH.
Qed.

Lemma contains_refl (s : string) : contains s s.
Proof. exists "", "". by rewrite String_app_nil_r. Qed.

Lemma contains_app_l (s sub rest : string) :
  contains s sub → contains (s +:+ rest) sub.
Proof.
  intros (before & after & ->). exists before, (after +:+ rest).
  by rewrite !String_app_assoc.
Qed.

Lemma joinViews_contains (l : list textinput.Model) t :
  t ∈ l → contains (joinViews l) (textinput_View t).
Proof.
  induction l as [|t0 l IH]; [by intros ?%elem_of_nil|].
  intros [->|Hin]%elem_of_cons.
  - destruct l; [apply contains_refl | apply contains_head].
  - destruct l as [|t1 l]; [by apply elem_of_nil in Hin|].
    change (joinViews (t0 :: t1 :: l))
      with (textinput_View t0 +:+ nl +:+ joinViews (t1 :: l)).
    by apply contains_skip, contains_skip, IH.
Qed.

(** X4. While the form is being edited (no final message, no task
    running) [View] shows every input, as the library renders it, and one
    button: the focused one exactly when the index is on the submit
    control, the blurred one otherwise. *)
Theorem editing_view_shows_the_form m :
  finalMsg m = "" →
  creating m = false →
  (∀ t, t ∈ inputs m → contains (View m) (textinput_View t))
  ∧ contains (View m)
      (if focusIndex m =? len m then focusedButton else blurredButton).
Proof.
  intros Hfinal Hcreating. unfold View. rewrite Hfinal, Hcreating.
  cbn [String.eqb negb]. split.
  - intros t Hin. by apply contains_app_l, joinViews_contains.
  - apply contains_skip, contains_skip, contains_skip, contains_head.
Qed.

End Coverage.

(** The witnesses run on the plain terminal. *)
#[local] Existing Instance plainOpaque.
#[local] Existing Instance plainLibraries.

Lemma focus_cycle_of_five_witness :
  reachable initialModel
  ∧ ∃ m' cs,
      run initialModel (KeyMsg ∘ keyName <$> [Tab; Down; Tab; Tab; Down])
      = Some (m', cs)
      ∧ focusIndex m' = focusIndex initialModel.
Proof.
  split; [constructor|].
  apply (focus_cycle_of_five initialModel reachable_initial).
  - reflexivity.
  - repeat constructor.
Defined.

Lemma cancel_quits_in_every_phase_witness :
  Update initialModel (KeyMsg "esc") = Some (initialModel, tea_Quit).
Proof.
  apply (cancel_quits_in_every_phase initialModel "esc").
  right. reflexivity.
Defined.

Lemma enter_on_a_field_advances_witness :
  Update initialModel (KeyMsg "enter") = Update initialModel (KeyMsg "tab").
Proof.
  apply (enter_on_a_field_advances initialModel).
  - constructor.
  - reflexivity.
Defined.

(** The initial model with the focus moved up onto the submit control. *)
Lemma empty_form_submits_placeholders_witness :
  Update (moveFocus true initialModel).1 (KeyMsg "enter")
  = Some (submitted (moveFocus true initialModel).1 placeholderRequest).
Proof.
  apply (empty_form_submits_placeholders (moveFocus true initialModel).1);
    reflexivity.
Defined.

(** The form with 12345 typed into the image input. *)
Lemma image_numeric_or_slug_witness :
  godo.Image
    {| godo.Name := "web-001"; godo.Region := "nyc3";
       godo.Size := "s-1vcpu-1gb";
       godo.Image := {| godo.ID := 12345; godo.Slug := "" |} |}
  = {| godo.ID := 12345; godo.Slug := "" |}.
Proof.
  exact (proj1 (image_numeric_or_slug
                  [initialInput 0; initialInput 1; initialInput 2;
                   typedImageInput]
                  typedImageInput _ eq_refl eq_refl) 12345 eq_refl).
Defined.

Lemma resolved_values_at_submission_witness :
  ∃ d m' c,
    Update (moveFocus true initialModel).1 (KeyMsg "enter") = Some (m', c)
    ∧ droplet m' = Some d
    ∧ godo.Name d = resolved_value (refocus 4 0 (initialInput 0)).1
    ∧ godo.Region d = resolved_value (refocus 4 1 (initialInput 1)).1
    ∧ godo.Size d = resolved_value (refocus 4 2 (initialInput 2)).1
    ∧ godo.Image d = imageReference (resolved_value (refocus 4 3 (initialInput 3)).1)
    ∧ inputs m' = inputs (moveFocus true initialModel).1.
Proof.
  apply (resolved_values_at_submission (moveFocus true initialModel).1);
    reflexivity.
Defined.

Lemma missing_token_fails_without_calls_witness :
  runDropletCreate (λ _, demoClient) ∅ placeholderRequest
  = ([], Some (dropletErrorMsg missingToken)).
Proof.
  apply (missing_token_fails_without_calls (λ _, demoClient) ∅
           placeholderRequest initialModel).
  left. reflexivity.
Defined.

Lemma demoClient_complete : answersComplete demoClient placeholderRequest.
Proof.
  split.
  - intros droplet resp Hc. injection Hc as <- <-.
    eexists _, _. split; [reflexivity|].
    eexists _, _, _, _. repeat split.
  - intros id droplet resp Hg. injection Hg as <- <-.
    eexists. split; [reflexivity|]. split; eexists; reflexivity.
Defined.

Lemma submission_task_returns_one_message_witness :
  ∃ calls o,
    steps demoClient (Getenv {[ "DO_TOKEN" := "tok" ]} "DO_TOKEN")
      placeholderRequest calls o
    ∧ runDropletCreate (λ _, demoClient) {[ "DO_TOKEN" := "tok" ]}
        placeholderRequest
      = (calls, Some (outcomeMsg o))
    ∧ Forall (contains (outcomeMsg o)) (outcomeParts o)
    ∧ ∀ m,
        Update m (dropletMsg (outcomeMsg o))
        = Some (set_finalMsg (outcomeMsg o) m, tea_Quit)
        ∧ phase (set_finalMsg (outcomeMsg o) m) (outcomePhase o)
        ∧ View (set_finalMsg (outcomeMsg o) m) = outcomeMsg o.
Proof.
  apply (submission_task_returns_one_message (λ _, demoClient)
           {[ "DO_TOKEN" := "tok" ]} placeholderRequest).
  exact demoClient_complete.
Defined.

(** C8 as stated fails: the API answers every call without an error, but
    its answer to the creation has no action link; the task panics after
    the creation and returns no message. *)
Lemma submission_task_may_return_nothing :
  (godo.Droplets_Create noLinkClient placeholderRequest).2 = None
  ∧ godo.WaitForActive noLinkClient "/v2/actions/1" = None
  ∧ (godo.Droplets_Get noLinkClient 7).2 = None
  ∧ PublicIPv4 demoDroplet = ("203.0.113.7", None)
  ∧ PrivateIPv4 demoDroplet = ("10.0.0.7", None)
  ∧ runDropletCreate (λ _, noLinkClient) {[ "DO_TOKEN" := "tok" ]}
      placeholderRequest
    = ([CreateCall "tok" placeholderRequest], None).
Proof. repeat split. Qed.

(** A creation the API rejects: one call, and the error as the message. *)
Example rejected_creation :
  runDropletCreate (λ _, rejectingClient) {[ "DO_TOKEN" := "tok" ]}
    placeholderRequest
  = ([CreateCall "tok" placeholderRequest],
     Some (dropletErrorMsg (godo.errors_New "unprocessable_entity"))).
Proof. reflexivity. Qed.

(** The model while the task is running: the focus moved up onto the submit
    control, then enter. *)
Lemma keys_handled_alike_while_submitting_witness :
  dispatched (submitted (moveFocus true initialModel).1 placeholderRequest).2
  = 1%nat.
Proof.
  exact (proj2 (keys_handled_alike_while_submitting
                  (submitted (moveFocus true initialModel).1
                     placeholderRequest).1
                  (KeyMsg "enter"))
           _ _ eq_refl).
Defined.

(** C1 as stated fails: in the Submitting phase a second enter dispatches a
    second task, and tab moves the focus index from 4 to 0. *)
Lemma submitting_form_still_handles_keys :
  ∃ m1 c1 m2 c2,
    Update initialModel (KeyMsg "up") = Some (m1, c1)
    ∧ Update m1 (KeyMsg "enter") = Some (m2, c2)
    ∧ dispatched c2 = 1%nat
    ∧ phase m2 Submitting
    ∧ focusIndex m2 = 4
    ∧ (∃ m3 c3,
          Update m2 (KeyMsg "enter") = Some (m3, c3)
          ∧ dispatched c3 = 1%nat)
    ∧ (∃ m4 c4,
          Update m2 (KeyMsg "tab") = Some (m4, c4)
          ∧ focusIndex m4 = 0
          ∧ m4 ≠ m2).
Proof.
  eexists _, _, _, _.
  split; [reflexivity|]. split; [reflexivity|]. split; [reflexivity|].
  split; [split; reflexivity|]. split; [reflexivity|]. split.
  - eexists _, _. split; reflexivity.
  - eexists _, _. split; [reflexivity|]. split; [reflexivity|].
    intros Heq. apply (f_equal focusIndex) in Heq. discriminate.
Qed.

Lemma reachable_shape_witness :
  length (inputs initialModel) = 4%nat ∧ 0 ≤ focusIndex initialModel ≤ 4.
Proof. exact (reachable_shape initialModel reachable_initial). Defined.

Lemma Update_never_panics_witness :
  ∃ m' c, Update initialModel (KeyMsg "enter") = Some (m', c) ∧ reachable m'.
Proof.
  exact (Update_never_panics initialModel (KeyMsg "enter") reachable_initial).
Defined.

Lemma other_keys_leave_the_form_witness :
  ∃ m' c,
    Update initialModel (KeyMsg "a") = Some (m', c)
    ∧ focusIndex m' = focusIndex initialModel
    ∧ length (inputs m') = length (inputs initialModel)
    ∧ creating m' = creating initialModel
    ∧ finalMsg m' = finalMsg initialModel
    ∧ droplet m' = droplet initialModel
    ∧ dispatched c = 0%nat.
Proof.
  exact (other_keys_leave_the_form "a" initialModel eq_refl eq_refl).
Defined.

Lemma View_shows_final_message_witness :
  View (set_finalMsg "done" initialModel) = "done".
Proof.
  apply (View_shows_final_message (set_finalMsg "done" initialModel)).
  discriminate.
Defined.

(** Up twice and tab once from the first input: the index is 4. *)
Lemma focus_index_after_keys_witness :
  ∃ m' cs,
    run initialModel (KeyMsg ∘ keyName <$> [Up; Up; Tab]) = Some (m', cs)
    ∧ len m' = len initialModel
    ∧ focusIndex m'
      = (focusIndex initialModel + netAdvance [Up; Up; Tab])
        mod (len initialModel + 1).
Proof.
  apply (focus_index_after_keys [Up; Up; Tab] initialModel).
  - by vm_compute.
  - reflexivity.
Defined.


Lemma untouched_form_submits_defaults_witness :
  ∃ m cs,
    run initialModel (KeyMsg ∘ keyName <$> [Tab; Up; Up]) = Some (m, cs)
    ∧ Forall (λ c, dispatched c = 0%nat) cs
    ∧ Update m (KeyMsg "enter") = Some (submitted m placeholderRequest)
    ∧ dispatched (submitted m placeholderRequest).2 = 1%nat.
Proof.
  apply (untouched_form_submits_defaults [Tab; Up; Up]). reflexivity.
Defined.


Lemma image_not_numeral_is_slug_witness :
  godo.Image placeholderRequest
  = {| godo.ID := 0; godo.Slug := resolved_value (initialInput 3) |}.
Proof.
  apply (image_not_numeral_is_slug (inputs initialModel) (initialInput 3)
           placeholderRequest); reflexivity.
Defined.

Lemma task_message_is_shown_witness :
  (∃ o, dropletErrorMsg (godo.errors_New "unprocessable_entity")
        = outcomeMsg o)
  ∧ dropletErrorMsg (godo.errors_New "unprocessable_entity") ≠ ""
  ∧ ∃ m',
      Update initialModel
        (dropletMsg (dropletErrorMsg (godo.errors_New "unprocessable_entity")))
      = Some (m', tea_Quit)
      ∧ View m' = dropletErrorMsg (godo.errors_New "unprocessable_entity").
Proof.
  apply (task_message_is_shown (λ _, rejectingClient)
           {[ "DO_TOKEN" := "tok" ]} placeholderRequest).
  reflexivity.
Defined.

Lemma task_silent_only_after_creation_witness :
  runDropletCreate (λ _, noLinkClient) {[ "DO_TOKEN" := "tok" ]}
    placeholderRequest
  = ([CreateCall (Getenv {[ "DO_TOKEN" := "tok" ]} "DO_TOKEN")
        placeholderRequest], None).
Proof.
  apply (proj2 (task_silent_only_after_creation (λ _, noLinkClient)
                  {[ "DO_TOKEN" := "tok" ]} placeholderRequest)).
  - discriminate.
  - reflexivity.
  - reflexivity.
Defined.

Lemma no_enter_no_task_witness :
  Forall (λ c, dispatched c = 0%nat)
    [ (moveFocus true initialModel).2;
      (updateRest (moveFocus true initialModel).1 (KeyMsg "x")).2 ]
  ∧ creating (updateRest (moveFocus true initialModel).1 (KeyMsg "x")).1
    = creating initialModel
  ∧ droplet (updateRest (moveFocus true initialModel).1 (KeyMsg "x")).1
    = droplet initialModel.
Proof.
  apply (no_enter_no_task [KeyMsg "up"; KeyMsg "x"] initialModel).
  - repeat constructor; discriminate.
  - reflexivity.
Defined.

Lemma creating_iff_request_stored_witness :
  (creating initialModel = true ↔ is_Some (droplet initialModel))
  ∧ ∀ msg m' c,
      Update initialModel msg = Some (m', c) →
      creating initialModel = true →
      creating m' = true ∧ is_Some (droplet m').
Proof.
  exact (creating_iff_request_stored initialModel reachable_initial).
Defined.

(** On the plain terminal no input answers any message. *)
Lemma typing_reaches_the_focused_input_only_witness :
  ∃ m1 c1 m2 c2,
    Update initialModel (KeyMsg (keyName Up)) = Some (m1, c1)
    ∧ Update m1 (KeyMsg "x") = Some (m2, c2)
    ∧ focusIndex m2 = focusIndex m1
    ∧ (∀ i t, inputs m1 !! i = Some t → Z.of_nat i ≠ focusIndex m1 →
              ∃ t', inputs m2 !! i = Some t'
                    ∧ textinput.Value t' = textinput.Value t)
    ∧ (focusIndex m1 = len m1 →
       textinput.Value <$> inputs m2 = textinput.Value <$> inputs m1).
Proof.
  apply (typing_reaches_the_focused_input_only Up "x" initialModel).
  - reflexivity.
  - reflexivity.
  - reflexivity.
Defined.

Lemma editing_view_shows_the_form_witness :
  (∀ t, t ∈ inputs initialModel →
        contains (View initialModel) (textinput_View t))
  ∧ contains (View initialModel)
      (if focusIndex initialModel =? len initialModel then focusedButton
       else blurredButton).
Proof.
  apply (editing_view_shows_the_form initialModel); reflexivity.
Defined.
